(** * bch-merit-lib: the merit computation of [lib/merit.js]

    A shallow embedding of the [Merit] class: the UTXO selection
    ([getTokenUtxos]), the parent matcher ([findTokenParent]), the ancestry
    walk ([getParentAge]), the per-UTXO merit ([calcMerit]) and the
    aggregation ([agMerit]).

    JavaScript numbers are IEEE-754 binary64 values; they are modelled by
    Rocq's primitive floats, whose operations are the same correctly rounded
    ones.  JavaScript objects are finite maps from property names to
    primitive values.  A function that can throw returns a [res]; the one
    unbounded loop of the library ([getParentAge]) takes a fuel argument that
    bounds the number of its iterations. *)

From Stdlib Require Import Floats ZArith Permutation.
From stdpp Require Import gmap strings list.

Local Open Scope string_scope.

(* ===================================================================== *)
(** ** JavaScript values *)
(* ===================================================================== *)

(** Primitive values found in the fields of the records the library reads. *)
Inductive prim : Type :=
  | VUndef
  | VNull
  | VBool (b : bool)
  | VNum (x : float)
  | VStr (s : string).

(** A plain object: property name to primitive value.  A missing property
    reads as [undefined]. *)
Abbreviation obj := (gmap string prim).

(** What a variable such as [parentInfo] holds: a primitive ([false]) or a
    reference to a record. *)
Inductive jsval : Type :=
  | JPrim (p : prim)
  | JObj (o : obj).

(** Exceptions.  [JsError msg] is [new Error(msg)]; [TypeError] is what the
    runtime raises on a property read from [undefined] or a call of a
    non-function; [External] is any failure raised by a collaborator. *)
Inductive exn : Type :=
  | JsError (msg : string)
  | TypeError
  | External (msg : string).

Inductive res (A : Type) : Type :=
  | Ret (a : A)
  | Throw (e : exn).
Arguments Ret {A} a.
Arguments Throw {A} e.

#[global] Instance res_ret : MRet res := @Ret.
#[global] Instance res_bind : MBind res := fun A B f m =>
  match m with
  | Ret a => f a
  | Throw e => Throw e
  end.

(** A number is NaN when it differs from itself. *)
Definition is_nan (x : float) : bool := negb (PrimFloat.eqb x x).

(** ToBoolean. *)
Definition truthy (v : prim) : bool :=
  match v with
  | VUndef | VNull => false
  | VBool b => b
  | VNum x => negb (PrimFloat.eqb x 0 || is_nan x)
  | VStr s => negb (String.eqb s "")
  end.

Definition truthy_j (v : jsval) : bool :=
  match v with
  | JPrim p => truthy p
  | JObj _ => true
  end.

(** The [===] operator on primitives. *)
Definition strict_eq (a b : prim) : bool :=
  match a, b with
  | VUndef, VUndef => true
  | VNull, VNull => true
  | VBool x, VBool y => Bool.eqb x y
  | VNum x, VNum y => PrimFloat.eqb x y
  | VStr x, VStr y => String.eqb x y
  | _, _ => false
  end.

(** Property read [o.k] on a record. *)
Definition get (o : obj) (k : string) : prim := default VUndef (o !! k).

(** Property read [v.k] on any value, for the property names the library
    uses (none of them is defined on the prototypes of booleans, numbers or
    strings): it throws on [undefined] and [null], and yields [undefined] on
    the other primitives. *)
Definition Get (v : jsval) (k : string) : res prim :=
  match v with
  | JObj o => Ret (get o k)
  | JPrim VUndef | JPrim VNull => Throw TypeError
  | JPrim _ => Ret VUndef
  end.

(** [String.prototype.includes]. *)
Fixpoint includes (hay needle : string) : bool :=
  String.prefix needle hay ||
  match hay with
  | EmptyString => false
  | String _ hay' => includes hay' needle
  end.

(** [Math.floor] on a binary64 value. *)
Definition Math_floor (x : float) : float :=
  match Prim2SF x with
  | S754_finite s m e =>
      if (0 <=? e)%Z then x
      else
        let q := Z.shiftr (Z.pos m) (- e) in
        let exact := (Z.shiftl q (- e) =? Z.pos m)%Z in
        let n := if s && negb exact then (q + 1)%Z else q in
        let r := PrimFloat.of_uint63 (Uint63.of_Z n) in
        if s then PrimFloat.opp r else r
  | _ => x
  end.

(** A function whose loop is unbounded runs on fuel: [OutOfFuel] stands for
    an execution that has not finished within the given number of
    iterations. *)
Inductive outcome (A : Type) : Type :=
  | Value (a : A)
  | Raised (e : exn)
  | OutOfFuel.
Arguments Value {A} a.
Arguments Raised {A} e.
Arguments OutOfFuel {A}.

#[global] Instance outcome_ret : MRet outcome := @Value.
#[global] Instance outcome_bind : MBind outcome := fun A B f m =>
  match m with
  | Value a => f a
  | Raised e => Raised e
  | OutOfFuel => OutOfFuel
  end.

Definition lift {A} (r : res A) : outcome A :=
  match r with
  | Ret a => Value a
  | Throw e => Raised e
  end.

(** [array.filter(f)] with a callback that can throw: the callback runs on
    the elements in order and the first exception aborts the call. *)
Fixpoint filter_res {A} (f : A -> res bool) (l : list A) : res (list A) :=
  match l with
  | [] => Ret []
  | x :: l' =>
      b ← f x;
      r ← filter_res f l';
      Ret (if b : bool then x :: r else r)
  end.

(* ===================================================================== *)
(** ** The collaborators *)
(* ===================================================================== *)

(** [this.env]: the two flags the library reads. *)
Record Env : Type := { MERIT_AGE : prim; VERBOSE_LOG : prim }.

(** One input of a transaction, and the part of a transaction record
    ([wallet.getTxData]) the library reads. *)
Record Vin : Type := { vin_txid : prim; vin_vout : prim }.
Record TxData : Type :=
  { tx_tokenId : prim; tx_isValidSlp : prim; tx_vin : list Vin }.

(** The answer of [wallet.getUtxos]: [bchUtxos] and
    [slpUtxos.type1.tokens]. *)
Record Utxos : Type := { bchUtxos : list obj; slpTokens : list obj }.

(** [config.wallet] (minimal-slp-wallet).  [getTxData] is called with a
    one-element array of transaction ids and answers an array of records. *)
Record Wallet : Type :=
  { getUtxos : string -> res Utxos;
    getTxData : prim -> res (list TxData);
    getTransactions : string -> res (list obj) }.

(** [config.wallet.bchjs] (bch-js): [SLP.Address.toCashAddress],
    [Blockchain.getBlockCount] and [Util.floor2]. *)
Record BchJs : Type :=
  { toCashAddress : prim -> res string;
    getBlockCount : res float;
    floor2 : float -> res float }.

(** The state of a [Merit] instance after its constructor: [this.env] is
    [config.env], which a caller may have left out. *)
Record Merit : Type :=
  { env : option Env; wallet : Wallet; bchjs : BchJs }.

(** The argument of the constructor: [config.env], and [config.wallet] with
    its [bchjs] property; each may be left out. *)
Record Config : Type :=
  { config_env : option Env; config_wallet : option (Wallet * BchJs) }.

(** The constructor (lines 14 to 32): it refuses a config without a wallet
    and takes [env] as it comes. *)
Definition constructor (config : Config) : res Merit :=
  match config_wallet config with
  | None =>
      Throw (JsError
        "Instance of minimal-slp-wallet must be passed in the config object when instantiating.")
  | Some (w, b) => Ret {| env := config_env config; wallet := w; bchjs := b |}
  end.

(** Modelled from the spec: [Util.floor2] belongs to bch-js and is not part
    of this repository; it truncates to two decimal places and never rounds
    up.  The library itself takes [floor2] from [this.bchjs]; this model is
    used for the worked scenarios. *)
Definition floor2_spec (x : float) : res float :=
  Ret (Math_floor (x * 100) / 100)%float.

Section Merit.

(** ToNumber of a string and ToString of a number are the runtime's
    decimal parser and printer; they are left abstract. *)
Variable StringToNumber : string -> float.
Variable NumberToString : float -> string.

(** ToNumber, as used by [Number(v)] and by the arithmetic operators. *)
Definition ToNumber (v : prim) : float :=
  match v with
  | VUndef => nan
  | VNull => 0%float
  | VBool b => if b then 1%float else 0%float
  | VNum x => x
  | VStr s => StringToNumber s
  end.

Definition ToString (v : prim) : string :=
  match v with
  | VUndef => "undefined"
  | VNull => "null"
  | VBool b => if b then "true" else "false"
  | VNum x => NumberToString x
  | VStr s => s
  end.

Variable this : Merit.

(** [this.env.F === '1']: a TypeError when [this.env] is undefined. *)
Definition env_flag (F : Env -> prim) : res bool :=
  match env this with
  | None => Throw TypeError
  | Some e => Ret (strict_eq (F e) (VStr "1"))
  end.

(* ------------------------------------------------------------------- *)
(** *** getTokenUtxos *)

(** The callback of the token branch:
    [elem => elem.tokenId && elem.tokenId.includes(tokenId)].  A truthy
    [tokenId] property that is not a string has no [includes] method. *)
Definition token_match (tokenId : prim) (elem : obj) : res bool :=
  let t := get elem "tokenId" in
  if truthy t then
    match t with
    | VStr s => Ret (includes s (ToString tokenId))
    | _ => Throw TypeError
    end
  else Ret false.

(** The callback of the native branch: [elem => !elem.tokenId]. *)
Definition native_match (elem : obj) : bool :=
  negb (truthy (get elem "tokenId")).

(** The third parameter, [utxoDelay], is never read and is left out. *)
Definition getTokenUtxos (address tokenId : prim) : res (list obj) :=
  address ← toCashAddress (bchjs this) address;
  utxos ← getUtxos (wallet this) address;
  _ ← env_flag VERBOSE_LOG;
  if truthy tokenId then filter_res (token_match tokenId) (slpTokens utxos)
  else Ret (List.filter native_match (bchUtxos utxos)).

(* ------------------------------------------------------------------- *)
(** *** findTokenParent *)

(** [r[0].p] for an array [r]: a TypeError when the array is empty. *)
Definition first_tx (r : list TxData) : res TxData :=
  match r with
  | d :: _ => Ret d
  | [] => Throw TypeError
  end.

(** [txHistory.filter(elem => elem.tx_hash === parentTxid)].  The result
    holds references to the entries of [txHistory]; an entry is named by
    its position. *)
Definition match_indices (txHistory : list obj) (parentTxid : prim)
  : list nat :=
  List.filter
    (fun j => strict_eq (get (default ∅ (txHistory !! j)) "tx_hash") parentTxid)
    (seq 0 (length txHistory)).

(** The test of line 264. *)
Definition valid_parent (childTokenId : prim) (d : TxData) : bool :=
  truthy (tx_isValidSlp d) && strict_eq childTokenId (tx_tokenId d).

(** The loop over [match]: each entry gets its [tx_pos] written in place,
    and [parentInfo] is made to point to it when it is a valid parent.
    The state is the history (the store of the entries) and [parentInfo]
    ([None] is [false]). *)
Fixpoint match_loop (childTokenId vout : prim) (match_ : list nat)
    (st : list obj * option nat) : res (list obj * option nat) :=
  match match_ with
  | [] => Ret st
  | j :: rest =>
      let thisUtxo := default ∅ (st.1 !! j) in
      thisTxData ← getTxData (wallet this) (get thisUtxo "tx_hash");
      d ← first_tx thisTxData;
      let txHistory := <[j := <["tx_pos" := vout]> thisUtxo]> st.1 in
      let parentInfo := if valid_parent childTokenId d then Some j else st.2 in
      match_loop childTokenId vout rest (txHistory, parentInfo)
  end.

(** The loop over [parentUtxos]. *)
Fixpoint parent_loop (childTokenId : prim) (parentUtxos : list Vin)
    (st : list obj * option nat) : res (list obj * option nat) :=
  match parentUtxos with
  | [] => Ret st
  | p :: rest =>
      let match_ := match_indices st.1 (vin_txid p) in
      st' ← match_loop childTokenId (vin_vout p) match_ st;
      parent_loop childTokenId rest st'
  end.

Definition findTokenParent (txid : prim) (addr : string) : res jsval :=
  txData ← getTxData (wallet this) txid;
  txData ← first_tx txData;
  let childTokenId := tx_tokenId txData in
  let parentUtxos := tx_vin txData in
  txHistory ← getTransactions (wallet this) addr;
  st ← parent_loop childTokenId parentUtxos (txHistory, None);
  Ret (match st.2 with
       | None => JPrim (VBool false)
       | Some j => JObj (default ∅ (st.1 !! j))
       end).

(* ------------------------------------------------------------------- *)
(** *** getParentAge *)

(** The [while (txid)] loop; one unit of fuel per iteration, that is, per
    call of [findTokenParent]. *)
Fixpoint getParentAge_loop (fuel : nat) (txid : prim) (addr : string)
    (oldestUtxo : jsval) : outcome jsval :=
  if truthy txid then
    match fuel with
    | O => OutOfFuel
    | S fuel' =>
        parentUtxo ← lift (findTokenParent txid addr);
        txid ← lift (Get parentUtxo "tx_hash");
        getParentAge_loop fuel' txid addr
          (if truthy_j parentUtxo then parentUtxo else oldestUtxo)
    end
  else Value oldestUtxo.

Definition getParentAge (fuel : nat) (txid : prim) (addr : string)
  : outcome jsval :=
  getParentAge_loop fuel txid addr (JPrim (VBool false)).

(* ------------------------------------------------------------------- *)
(** *** calcMerit *)

(** The argument [hydratedUtxos]: an array of records, or anything
    else. *)
Inductive jsarg : Type :=
  | AArray (l : list obj)
  | AOther (v : jsval).

Definition BLOCKS_IN_A_DAY : float := 144%float.

(** The age of one element when [MERIT_AGE] is on (lines 121 to 138). *)
Definition calc_age (fuel : nat) (currentBlockHeight : float)
    (bchAddr : string) (elem : obj) : outcome float :=
  let height := get elem "height" in
  parentUtxo ← getParentAge fuel (get elem "tx_hash") bchAddr;
  height ← (if truthy_j parentUtxo then lift (Get parentUtxo "height")
            else Value height);
  let age := ((currentBlockHeight - ToNumber height) / BLOCKS_IN_A_DAY)%float in
  age ← lift (floor2 (bchjs this) age);
  Value (if strict_eq (get elem "height") (VNum 0) then 0%float else age).

(** The body of the loop of [calcMerit] (lines 116 to 149): the element
    with its [age] and [merit] properties written. *)
Definition calc_elem (fuel : nat) (currentBlockHeight : float)
    (bchAddr : string) (tokenId : prim) (elem : obj) : outcome obj :=
  aging ← lift (env_flag MERIT_AGE);
  age ← (if aging : bool then calc_age fuel currentBlockHeight bchAddr elem
         else Value 0%float);
  let merit :=
    if truthy tokenId then ToNumber (get elem "tokenQty")
    else (ToNumber (get elem "value") / 100000000)%float in
  let merit := if aging : bool then (merit * age)%float else merit in
  Value (<["merit" := VNum merit]> (<["age" := VNum age]> elem)).

Fixpoint calcMerit_loop (fuel : nat) (currentBlockHeight : float)
    (bchAddr : string) (tokenId : prim) (hydratedUtxos : list obj)
  : outcome (list obj) :=
  match hydratedUtxos with
  | [] => Value []
  | elem :: rest =>
      elem' ← calc_elem fuel currentBlockHeight bchAddr tokenId elem;
      updatedUtxos ← calcMerit_loop fuel currentBlockHeight bchAddr tokenId rest;
      Value (elem' :: updatedUtxos)
  end.

Definition calcMerit (fuel : nat) (hydratedUtxos : jsarg)
    (address tokenId : prim) : outcome (list obj) :=
  match hydratedUtxos with
  | AOther _ => Raised (JsError "Input hydratedUtxo must be an array")
  | AArray l =>
      bchAddr ← lift (toCashAddress (bchjs this) address);
      aging ← lift (env_flag MERIT_AGE);
      currentBlockHeight ←
        (if aging : bool then lift (getBlockCount (bchjs this))
         else Value 0%float);
      calcMerit_loop fuel currentBlockHeight bchAddr tokenId l
  end.

(* ------------------------------------------------------------------- *)
(** *** agMerit *)

(** [agMerit += elem.merit]: [calcMerit] stores a number in [merit], so
    the [+] is the addition of numbers. *)
Definition sum_merit (meritUtxos : list obj) : float :=
  fold_left (fun agMerit elem => (agMerit + ToNumber (get elem "merit"))%float)
    meritUtxos 0%float.

Definition agMerit (fuel : nat) (address tokenId : prim) : outcome float :=
  if negb (truthy address) then
    Raised (JsError "an address must be specified!")
  else
    utxos ← lift (getTokenUtxos address tokenId);
    _ ← lift (env_flag VERBOSE_LOG);
    meritUtxos ← calcMerit fuel (AArray utxos) address tokenId;
    Value (sum_merit meritUtxos).

(* ------------------------------------------------------------------- *)
(** *** getTokenQuantity *)

(** Lines 77 to 90: [qty += Number(elem.tokenQty)] over the elements in
    their order.  A value that is not an array has no [map] method. *)
Definition getTokenQuantity (hydratedUtxos : jsarg) : res float :=
  match hydratedUtxos with
  | AArray l =>
      Ret (fold_left
             (fun qty elem => (qty + ToNumber (get elem "tokenQty"))%float)
             l 0%float)
  | AOther _ => Throw TypeError
  end.

End Merit.

(* ===================================================================== *)
(** ** Definitions used to state the properties *)
(* ===================================================================== *)

(** A value that is [false] or a record. *)
Definition false_or_record (v : jsval) : Prop :=
  v = JPrim (VBool false) \/ exists o, v = JObj o.

(** The test of the token branch on a record whose [tokenId] is a string or
    is missing. *)
Definition has_token (t : string) (elem : obj) : bool :=
  match get elem "tokenId" with
  | VStr s => includes s t
  | _ => false
  end.

(** The [tokenId] property of a record is falsy or a string. *)
Definition tokenId_is_string (elem : obj) : Prop :=
  truthy (get elem "tokenId") = true -> exists s, get elem "tokenId" = VStr s.

(** The invariant of the data model on a native record: no [tokenId], or a
    token id that is a non-empty string. *)
Definition well_formed_tokenId (elem : obj) : Prop :=
  elem !! "tokenId" = None \/
  exists s, s <> "" /\ elem !! "tokenId" = Some (VStr s).

(** An entry of the history as the loops may have left it: untouched, or
    with a [tx_pos] written. *)
Definition touched (o0 o : obj) : Prop :=
  o = o0 \/ exists v, o = <["tx_pos" := v]> o0.

(** A record whose [tokenId] is truthy and is not a string. *)
Definition foreign_tokenId (elem : obj) : Prop :=
  truthy (get elem "tokenId") = true /\ forall s, get elem "tokenId" <> VStr s.

(** A number that is neither NaN nor an infinity. *)
Definition is_finite (x : float) : bool :=
  match Prim2SF x with
  | S754_zero _ | S754_finite _ _ _ => true
  | _ => false
  end.

(** The value a variable holds for the parent record kept on values. *)
Definition parent_value (acc : option obj) : jsval :=
  match acc with
  | Some o => JObj o
  | None => JPrim (VBool false)
  end.

Section Statements.

Variable StringToNumber : string -> float.
Variable this : Merit.

(** The merit of one UTXO before ageing: its token quantity when a token
    is selected, its value in coins otherwise. *)
Definition unit_merit (tokenId : prim) (elem : obj) : float :=
  if truthy tokenId then ToNumber StringToNumber (get elem "tokenQty")
  else (ToNumber StringToNumber (get elem "value") / 100000000)%float.

(** The sum of the unit merits, accumulated from zero in the order of the
    sequence. *)
Definition sum_units (tokenId : prim) (utxos : list obj) : float :=
  fold_left (fun acc elem => (acc + unit_merit tokenId elem)%float) utxos 0%float.

(** The height an age is counted from: the one of the ancestor when the
    walk found one, the UTXO's own otherwise. *)
Definition effective_height (ancestor : jsval) (elem : obj) : prim :=
  match ancestor with
  | JObj o => get o "height"
  | JPrim _ => get elem "height"
  end.

(** A UTXO is unconfirmed when its [height] is the number zero. *)
Definition unconfirmed (elem : obj) : bool :=
  strict_eq (get elem "height") (VNum 0).

(** The pairs (candidate input, matching history entry) in the order in
    which [findTokenParent] evaluates them. *)
Definition evaluations (parentUtxos : list Vin) (txHistory : list obj)
  : list (Vin * obj) :=
  flat_map
    (fun c => map (pair c)
       (List.filter (fun e => strict_eq (get e "tx_hash") (vin_txid c)) txHistory))
    parentUtxos.

(** The transaction record fetched for an id, when the fetch answers
    one. *)
Definition tx_of (k : prim) : option TxData :=
  match getTxData (wallet this) k with
  | Ret (d :: _) => Some d
  | _ => None
  end.

(** An evaluated pair is accepted when the record fetched for the match
    carries the child's token id and is flagged as a valid token
    transaction. *)
Definition accepted (childTokenId : prim) (ev : Vin * obj) : bool :=
  match tx_of (get ev.2 "tx_hash") with
  | Some d => truthy (tx_isValidSlp d) && strict_eq childTokenId (tx_tokenId d)
  | None => false
  end.

(** The parent record of an accepted pair: the history entry (its
    [tx_hash] and [height]) with the candidate's [vout] as [tx_pos]. *)
Definition parent_record (ev : Vin * obj) : obj :=
  <["tx_pos" := vin_vout ev.1]> ev.2.

Definition last_accepted (childTokenId : prim) (evs : list (Vin * obj)) : jsval :=
  match last (List.filter (accepted childTokenId) evs) with
  | Some ev => JObj (parent_record ev)
  | None => JPrim (VBool false)
  end.

(** The evaluations of [findTokenParent] on values: each evaluated pair
    fetches the record of its match and, when that is a valid parent,
    replaces the parent held so far by its parent record. *)
Fixpoint eval_fold (childTokenId : prim) (evs : list (Vin * obj))
    (acc : option obj) : res (option obj) :=
  match evs with
  | [] => Ret acc
  | ev :: rest =>
      ds ← getTxData (wallet this) (get ev.2 "tx_hash");
      d ← first_tx ds;
      eval_fold childTokenId rest
        (if valid_parent childTokenId d then Some (parent_record ev) else acc)
  end.

(** The store [txHistory] and the reference [parentInfo] against the
    original history [H0] and the parent record held on values: the entries
    are the original ones up to their [tx_pos], and [parentInfo] points to
    an entry that equals the record held and whose transaction is a valid
    parent. *)
Definition store_inv (childTokenId : prim) (H0 : list obj)
    (st : list obj * option nat) (acc : option obj) : Prop :=
  Forall2 touched H0 st.1 /\
  match st.2 with
  | None => acc = None
  | Some j =>
      exists o d ds, st.1 !! j = Some o /\ acc = Some o /\
        getTxData (wallet this) (get o "tx_hash") = Ret (d :: ds) /\
        valid_parent childTokenId d = true
  end.

(** The chain of parents resolved from a transaction id, one
    [findTokenParent] after the other, down to the first id that has
    none. *)
Inductive ancestry (addr : string) : prim -> list obj -> Prop :=
  | ancestry_falsy txid :
      truthy txid = false -> ancestry addr txid []
  | ancestry_end txid :
      truthy txid = true ->
      findTokenParent this txid addr = Ret (JPrim (VBool false)) ->
      ancestry addr txid []
  | ancestry_step txid p chain :
      truthy txid = true ->
      findTokenParent this txid addr = Ret (JObj p) ->
      ancestry addr (get p "tx_hash") chain ->
      ancestry addr txid (p :: chain).

(** The deepest ancestor of a chain, [false] for the empty chain. *)
Definition deepest (chain : list obj) : jsval :=
  match last chain with
  | Some p => JObj p
  | None => JPrim (VBool false)
  end.

(** The walk from a transaction id as far as it finds parents:
    [resolves addr txid chain t] when the resolutions starting at [txid]
    find, one after the other, the parent records of [chain], and [t] is the
    id reached, the one to resolve next ([txid] itself for the empty
    chain). *)
Inductive resolves (addr : string) : prim -> list obj -> prim -> Prop :=
  | resolves_nil txid : resolves addr txid [] txid
  | resolves_step txid p chain t :
      truthy txid = true ->
      findTokenParent this txid addr = Ret (JObj p) ->
      resolves addr (get p "tx_hash") chain t ->
      resolves addr txid (p :: chain) t.

End Statements.

(* ===================================================================== *)
(** ** Worked ledgers *)
(* ===================================================================== *)

Module Ledger.

(** A decimal parser and printer are not needed by the worked ledgers,
    whose numbers are numbers. *)
Definition S2N (s : string) : float := nan.
Definition N2S (x : float) : string := "NaN".

Definition record (l : list (string * prim)) : obj := list_to_map l.

Definition PSF : string := "38e97c5d".

Definition token_tx (tok : string) (ok : bool) (ins : list (string * float))
  : TxData :=
  {| tx_tokenId := VStr tok;
     tx_isValidSlp := VBool ok;
     tx_vin := map (fun p => {| vin_txid := VStr p.1; vin_vout := VNum p.2 |}) ins |}.

(** The transactions the wallet knows.  [t3] spends [t2], which spends
    [t1], whose input [g0] comes from another address; [u1] spends [p1],
    which is not in the history; [c] spends [pa], [pb] and [pc]. *)
Definition transactions : list (string * TxData) :=
  [ ("t3", token_tx PSF true [("t2", 1%float)]);
    ("t2", token_tx PSF true [("t1", 2%float)]);
    ("t1", token_tx PSF true [("g0", 0%float)]);
    ("u1", token_tx PSF true [("p1", 1%float)]);
    ("c", token_tx PSF true [("pa", 0%float); ("pb", 1%float); ("pc", 2%float)]);
    ("pa", token_tx PSF true []);
    ("pb", token_tx PSF true []);
    ("pc", token_tx "ffff" true []) ].

Fixpoint find_tx (s : string) (l : list (string * TxData)) : res (list TxData) :=
  match l with
  | [] => Throw (External "transaction not found")
  | (k, d) :: l' => if String.eqb s k then Ret [d] else find_tx s l'
  end.

Definition entry (h : string) (height : float) : obj :=
  record [("tx_hash", VStr h); ("height", VNum height)].

Definition history : list obj :=
  [ entry "t1" 600000; entry "t2" 650000; entry "t3" 0;
    entry "pa" 100; entry "pb" 50; entry "pb" 60; entry "pc" 70 ].

Definition token_utxo (h : string) (height qty : float) : obj :=
  record [("tx_hash", VStr h); ("tx_pos", VNum 1); ("height", VNum height);
          ("value", VNum 546); ("tokenId", VStr PSF); ("tokenQty", VNum qty)].

Definition coin_utxo (h : string) (height value : float) : obj :=
  record [("tx_hash", VStr h); ("tx_pos", VNum 0); ("height", VNum height);
          ("value", VNum value)].

Definition u1 : obj := token_utxo "u1" 665504 5000.
Definition u3 : obj := token_utxo "t3" 0 1200.
Definition other_token : obj :=
  record [("tx_hash", VStr "x9"); ("height", VNum 7); ("tokenId", VStr "ffff");
          ("tokenQty", VNum 3)].

Definition dime : obj := coin_utxo "d1" 500 10000000.
Definition two_dimes : obj := coin_utxo "d2" 501 20000000.
Definition three_dimes : obj := coin_utxo "d3" 502 30000000.

Definition bch_js : BchJs :=
  {| toCashAddress := fun a =>
       match a with
       | VStr s => Ret s
       | _ => Throw (External "unsupported address format")
       end;
     getBlockCount := Ret 665800%float;
     floor2 := floor2_spec |}.

(** A wallet over the transactions above; the address ["empty"] holds
    nothing. *)
Definition wallet_of (coins tokens : list obj) : Wallet :=
  {| getUtxos := fun a =>
       if String.eqb a "empty" then Ret {| bchUtxos := []; slpTokens := [] |}
       else Ret {| bchUtxos := coins; slpTokens := tokens |};
     getTxData := fun t =>
       match t with
       | VStr s => find_tx s transactions
       | _ => Throw (External "transaction not found")
       end;
     getTransactions := fun a => Ret history |}.

Definition merit_of (age : string) (coins tokens : list obj) : Merit :=
  {| env := Some {| MERIT_AGE := VStr age; VERBOSE_LOG := VUndef |};
     wallet := wallet_of coins tokens;
     bchjs := bch_js |}.

Definition coins : list obj := [dime; two_dimes; three_dimes].
Definition tokens : list obj := [u1; other_token; u3].

(** Ageing on and off. *)
Definition aged : Merit := merit_of "1" coins tokens.
Definition plain : Merit := merit_of "0" coins tokens.
(** The same holdings with the coins listed in the reverse order. *)
Definition plain_rev : Merit := merit_of "0" (rev coins) tokens.

(** What [calcMerit] writes into [u1] and [u3] with ageing on. *)
#[warnings="-inexact-float"]
Definition aged_u1 : obj := <["merit" := VNum 10250]> (<["age" := VNum 2.05]> u1).
Definition aged_u3 : obj := <["merit" := VNum 0]> (<["age" := VNum 0]> u3).

(** The parent records of [t3], [t2] and [c] at the address. *)
Definition parent_t2 : obj := <["tx_pos" := VNum 1]> (entry "t2" 650000).
Definition parent_t1 : obj := <["tx_pos" := VNum 2]> (entry "t1" 600000).
Definition parent_pb : obj := <["tx_pos" := VNum 1]> (entry "pb" 60).

Definition inputs_of_c : list Vin :=
  [ {| vin_txid := VStr "pa"; vin_vout := VNum 0 |};
    {| vin_txid := VStr "pb"; vin_vout := VNum 1 |};
    {| vin_txid := VStr "pc"; vin_vout := VNum 2 |} ].

(** The level of a transaction: the length of the chain of parents below
    it at the address. *)
Definition level (t : prim) : nat :=
  match t with
  | VStr s =>
      if String.eqb s "t3" then 2
      else if String.eqb s "t2" then 1
      else if String.eqb s "c" then 1
      else 0
  | _ => 0
  end.

(** An instance built from a config that leaves [env] out. *)
Definition bare_config : Config :=
  {| config_env := None; config_wallet := Some (wallet_of coins tokens, bch_js) |}.
Definition bare : Merit :=
  {| env := None; wallet := wallet_of coins tokens; bchjs := bch_js |}.

(** Token records that break the data model: a token id that is a number,
    and a record of the token without a quantity. *)
Definition numbered_token : obj :=
  record [("tx_hash", VStr "n1"); ("height", VNum 9); ("tokenId", VNum 38);
          ("tokenQty", VNum 1)].
Definition unquantified_token : obj :=
  record [("tx_hash", VStr "q1"); ("height", VNum 9); ("tokenId", VStr PSF)].

Definition odd : Merit := merit_of "0" coins [u1; numbered_token].
Definition unquantified : Merit := merit_of "0" coins [u1; unquantified_token; u3].

(** A node that cannot tell the height of the chain. *)
Definition headless : Merit :=
  {| env := Some {| MERIT_AGE := VStr "1"; VERBOSE_LOG := VUndef |};
     wallet := wallet_of coins tokens;
     bchjs := {| toCashAddress := toCashAddress bch_js;
                 getBlockCount := Throw (External "no block count");
                 floor2 := floor2_spec |} |}.

(** A wallet whose UTXO service is down. *)
Definition offline : Merit :=
  {| env := Some {| MERIT_AGE := VStr "0"; VERBOSE_LOG := VUndef |};
     wallet := {| getUtxos := fun _ => Throw (External "no utxos");
                  getTxData := getTxData (wallet_of coins tokens);
                  getTransactions := getTransactions (wallet_of coins tokens) |};
     bchjs := bch_js |}.

(** A history that names a transaction, [z], as its own input: a cycle. *)
Definition cyclic : Merit :=
  {| env := Some {| MERIT_AGE := VStr "1"; VERBOSE_LOG := VUndef |};
     wallet := {| getUtxos := fun _ => Ret {| bchUtxos := []; slpTokens := [] |};
                  getTxData := fun t =>
                    if strict_eq t (VStr "z")
                    then Ret [token_tx PSF true [("z", 0%float)]]
                    else Throw (External "transaction not found");
                  getTransactions := fun _ => Ret [entry "z" 10] |};
     bchjs := bch_js |}.
Definition on_cycle (t : prim) : Prop := t = VStr "z".

(** A token UTXO whose transaction [k] spends [pa] and [lost]; the history
    lists both, and the wallet has no record for [lost]. *)
Definition gappy : Merit :=
  {| env := Some {| MERIT_AGE := VStr "1"; VERBOSE_LOG := VUndef |};
     wallet := {| getUtxos := fun _ =>
                    Ret {| bchUtxos := [];
                           slpTokens := [u1; token_utxo "k" 700 10] |};
                  getTxData := fun t =>
                    if strict_eq t (VStr "k")
                    then Ret [token_tx PSF true [("pa", 0%float); ("lost", 1%float)]]
                    else getTxData (wallet_of coins tokens) t;
                  getTransactions := fun _ => Ret [entry "pa" 100; entry "lost" 90] |};
     bchjs := bch_js |}.

End Ledger.

(** A closed equation decided by evaluation. *)
Ltac evaluated :=
  lazymatch goal with
  | |- @eq ?A _ ?r => vm_cast_no_check (@eq_refl A r)
  end.

(* ===================================================================== *)
(** ** Properties of [calcMerit] *)
(* ===================================================================== *)

Section CalcMerit.

Variable S2N : string -> float.
Variable this : Merit.

(** What [calc_elem] returns, by cases on the ageing flag. *)
Lemma calc_elem_inv fuel cur bchAddr tokenId elem elem' :
  calc_elem S2N this fuel cur bchAddr tokenId elem = Value elem' ->
  exists (aging : bool) (age : float),
    env_flag this MERIT_AGE = Ret aging /\
    (if aging then calc_age S2N this fuel cur bchAddr elem = Value age
     else age = 0%float) /\
    elem' =
      <["merit" := VNum (if aging then (unit_merit S2N tokenId elem * age)%float
                         else unit_merit S2N tokenId elem)]>
        (<["age" := VNum age]> elem).
Proof.
  unfold calc_elem. intros H.
  destruct (env_flag this MERIT_AGE) as [aging|] eqn:Hflag; simpl in H;
    [| discriminate].
  destruct aging.
  - destruct (calc_age S2N this fuel cur bchAddr elem) as [age| |] eqn:Hage;
      simpl in H; try discriminate.
    exists true, age. split; [reflexivity|]. split; [reflexivity|].
    injection H as <-. reflexivity.
  - simpl in H. exists false, 0%float. split; [reflexivity|].
    split; [reflexivity|]. injection H as <-. reflexivity.
Qed.

(** The loop keeps the length and the order: the element at each position
    of the result is [calc_elem] of the input element at that position. *)
Lemma calcMerit_loop_lookup fuel cur bchAddr tokenId l out :
  calcMerit_loop S2N this fuel cur bchAddr tokenId l = Value out ->
  length out = length l /\
  forall i elem, l !! i = Some elem ->
    exists elem', out !! i = Some elem' /\
      calc_elem S2N this fuel cur bchAddr tokenId elem = Value elem'.
Proof.
  revert out. induction l as [|x l IH]; intros out H; simpl in H.
  - injection H as <-. split; [reflexivity|]. intros i elem Hi. discriminate.
  - destruct (calc_elem S2N this fuel cur bchAddr tokenId x) as [x'| |] eqn:Hx;
      simpl in H; try discriminate.
    destruct (calcMerit_loop S2N this fuel cur bchAddr tokenId l)
      as [out'| |] eqn:Hl; simpl in H; try discriminate.
    injection H as <-. destruct (IH out' eq_refl) as [Hlen Hat].
    split; [simpl; congruence|].
    intros [|i] elem Hi; simpl in Hi.
    + injection Hi as <-. exists x'. split; [reflexivity | assumption].
    + exact (Hat i elem Hi).
Qed.

(** What a successful call of [calcMerit] on an array went through. *)
Lemma calcMerit_inv fuel l address tokenId out :
  calcMerit S2N this fuel (AArray l) address tokenId = Value out ->
  exists bchAddr (aging : bool) cur,
    toCashAddress (bchjs this) address = Ret bchAddr /\
    env_flag this MERIT_AGE = Ret aging /\
    (if aging then getBlockCount (bchjs this) = Ret cur else cur = 0%float) /\
    calcMerit_loop S2N this fuel cur bchAddr tokenId l = Value out.
Proof.
  unfold calcMerit. intros H.
  destruct (toCashAddress (bchjs this) address) as [bchAddr|] eqn:Haddr;
    simpl in H; [| discriminate].
  destruct (env_flag this MERIT_AGE) as [aging|] eqn:Hflag; simpl in H;
    [| discriminate].
  destruct aging.
  - destruct (getBlockCount (bchjs this)) as [cur|] eqn:Hcur; simpl in H;
      [| discriminate].
    exists bchAddr, true, cur. auto.
  - simpl in H. exists bchAddr, false, 0%float. auto.
Qed.

(** With ageing off the loop cannot fail: it writes age zero and the
    unit merit into every element. *)
Lemma calcMerit_loop_plain fuel cur bchAddr tokenId l :
  env_flag this MERIT_AGE = Ret false ->
  calcMerit_loop S2N this fuel cur bchAddr tokenId l =
    Value (map (fun elem =>
                  <["merit" := VNum (unit_merit S2N tokenId elem)]>
                    (<["age" := VNum 0]> elem)) l).
Proof.
  intros Hflag. induction l as [|x l IH]; simpl; [reflexivity|].
  unfold calc_elem at 1. rewrite Hflag. simpl. rewrite IH.
  reflexivity.
Qed.

Lemma calcMerit_plain fuel l address bchAddr tokenId :
  toCashAddress (bchjs this) address = Ret bchAddr ->
  env_flag this MERIT_AGE = Ret false ->
  calcMerit S2N this fuel (AArray l) address tokenId =
    Value (map (fun elem =>
                  <["merit" := VNum (unit_merit S2N tokenId elem)]>
                    (<["age" := VNum 0]> elem)) l).
Proof.
  intros Haddr Hflag. unfold calcMerit. rewrite Haddr. simpl.
  rewrite Hflag. simpl. apply calcMerit_loop_plain. assumption.
Qed.

(** The loop returns when ageing is off, and when ageing is on and the age
    of every element can be computed. *)
Lemma calcMerit_loop_returns fuel cur bchAddr tokenId l (aging : bool) :
  env_flag this MERIT_AGE = Ret aging ->
  (aging = true ->
   Forall (fun elem => exists age,
             calc_age S2N this fuel cur bchAddr elem = Value age) l) ->
  exists out, calcMerit_loop S2N this fuel cur bchAddr tokenId l = Value out.
Proof.
  intros Hflag Hages. destruct aging.
  - specialize (Hages eq_refl).
    induction Hages as [|x l [age Hx] _ [out IH]]; simpl; [eauto|].
    unfold calc_elem at 1. rewrite Hflag. simpl. rewrite Hx. simpl.
    rewrite IH. simpl. eauto.
  - rewrite calcMerit_loop_plain by assumption. eauto.
Qed.

End CalcMerit.

(* ===================================================================== *)
(** ** The shape of the values of the walk *)
(* ===================================================================== *)

Section Shapes.

Variable this : Merit.

Lemma findTokenParent_shape txid addr v :
  findTokenParent this txid addr = Ret v -> false_or_record v.
Proof.
  unfold findTokenParent. intros H.
  destruct (getTxData (wallet this) txid) as [ds|]; simpl in H; [| discriminate].
  destruct (first_tx ds) as [d|]; simpl in H; [| discriminate].
  destruct (getTransactions (wallet this) addr) as [h|]; simpl in H;
    [| discriminate].
  destruct (parent_loop this (tx_tokenId d) (tx_vin d) (h, None)) as [st|];
    simpl in H; [| discriminate].
  injection H as <-. destruct (st.2); [right; eauto | left; reflexivity].
Qed.

(** Reading a property of [false] or of a record does not throw. *)
Lemma Get_false_or_record v k :
  false_or_record v -> exists p, Get v k = Ret p.
Proof. intros [-> | [o ->]]; simpl; eauto. Qed.

Lemma getParentAge_loop_shape fuel : forall txid addr oldest v,
  false_or_record oldest ->
  getParentAge_loop this fuel txid addr oldest = Value v ->
  false_or_record v.
Proof.
  induction fuel as [|fuel IH]; intros txid addr oldest v Hold H; simpl in H.
  - destruct (truthy txid); [discriminate|]. injection H as <-. assumption.
  - destruct (truthy txid); [| injection H as <-; assumption].
    destruct (findTokenParent this txid addr) as [p|] eqn:Hp; simpl in H;
      [| discriminate].
    pose proof (findTokenParent_shape _ _ _ Hp) as Hshape.
    destruct (Get p "tx_hash") as [t|]; simpl in H; [| discriminate].
    apply IH in H; [assumption|].
    destruct (truthy_j p); assumption.
Qed.

Lemma getParentAge_shape fuel txid addr v :
  getParentAge this fuel txid addr = Value v -> false_or_record v.
Proof.
  apply getParentAge_loop_shape. left. reflexivity.
Qed.

End Shapes.

Section CalcAge.

Variable S2N : string -> float.
Variable this : Merit.

(** The age computed for one element when ageing is on. *)
Lemma calc_age_inv fuel cur bchAddr elem age :
  calc_age S2N this fuel cur bchAddr elem = Value age ->
  exists ancestor a,
    getParentAge this fuel (get elem "tx_hash") bchAddr = Value ancestor /\
    floor2 (bchjs this)
      ((cur - ToNumber S2N (effective_height ancestor elem)) / 144)%float = Ret a /\
    age = if unconfirmed elem then 0%float else a.
Proof.
  unfold calc_age. intros H.
  destruct (getParentAge this fuel (get elem "tx_hash") bchAddr)
    as [ancestor| |] eqn:Hanc; simpl in H; try discriminate.
  assert (Hh : (if truthy_j ancestor then lift (Get ancestor "height")
                else Value (get elem "height"))
               = Value (effective_height ancestor elem)).
  { destruct (getParentAge_shape _ _ _ _ _ Hanc) as [-> | [o ->]];
      reflexivity. }
  rewrite Hh in H. simpl in H.
  destruct (floor2 (bchjs this) _) as [a|] eqn:Hfloor; simpl in H;
    [| discriminate].
  exists ancestor, a. split; [reflexivity|]. split; [exact Hfloor|].
  injection H as <-. reflexivity.
Qed.

End CalcAge.

(* ===================================================================== *)
(** ** [calcMerit]: the frame, the ages and the validation *)
(* ===================================================================== *)

(** C10. Given an address the normaliser accepts, [calcMerit] returns on
    every array when ageing is off, and when ageing is on and the height of
    the chain and the age of every element can be computed.  What it returns is a sequence of the length of its
    input whose element at each position is the input record at that
    position with the properties [age] and [merit] written, both numbers;
    every other property of every record is as it was. *)
Theorem calcMerit_frame S2N this fuel l address tokenId :
  (forall bchAddr (aging : bool) cur,
     toCashAddress (bchjs this) address = Ret bchAddr ->
     env_flag this MERIT_AGE = Ret aging ->
     (aging = true ->
      getBlockCount (bchjs this) = Ret cur /\
      Forall (fun elem => exists age,
                calc_age S2N this fuel cur bchAddr elem = Value age) l) ->
     exists out, calcMerit S2N this fuel (AArray l) address tokenId = Value out)
  /\
  (forall out,
     calcMerit S2N this fuel (AArray l) address tokenId = Value out ->
     length out = length l /\
     forall i elem, l !! i = Some elem ->
       exists elem' age merit,
         out !! i = Some elem' /\
         elem' !! "age" = Some (VNum age) /\
         elem' !! "merit" = Some (VNum merit) /\
         forall k, k <> "age" -> k <> "merit" -> elem' !! k = elem !! k).
Proof.
  split.
  - intros bchAddr aging cur Haddr Hflag Hages.
    unfold calcMerit. rewrite Haddr. simpl. rewrite Hflag. simpl.
    destruct aging.
    + destruct (Hages eq_refl) as [-> Hall]. simpl.
      apply (calcMerit_loop_returns S2N this fuel cur bchAddr tokenId l true Hflag).
      intros _. exact Hall.
    + simpl.
      apply (calcMerit_loop_returns S2N this fuel 0%float bchAddr tokenId l false
               Hflag).
      discriminate.
  - intros out H.
    destruct (calcMerit_inv _ _ _ _ _ _ _ H)
      as (bchAddr & aging & cur & _ & _ & _ & Hloop).
    destruct (calcMerit_loop_lookup _ _ _ _ _ _ _ _ Hloop) as [Hlen Hat].
    split; [exact Hlen|].
    intros i elem Hi.
    destruct (Hat i elem Hi) as (elem' & Hout & Helem).
    destruct (calc_elem_inv _ _ _ _ _ _ _ _ Helem) as (ag & age & _ & _ & ->).
    eexists _, age, _. split; [exact Hout|].
    split; [| split].
    + rewrite lookup_insert_ne by discriminate. apply lookup_insert_eq.
    + apply lookup_insert_eq.
    + intros k Hage Hmerit.
      rewrite lookup_insert_ne by congruence.
      rewrite lookup_insert_ne by congruence. reflexivity.
Qed.

(** C4. A UTXO whose own [height] is zero gets the age zero, whatever the
    flags, the ledger and the outcome of the ancestry walk are. *)
Theorem unconfirmed_age_zero S2N this fuel l address tokenId out :
  calcMerit S2N this fuel (AArray l) address tokenId = Value out ->
  forall i elem, l !! i = Some elem -> unconfirmed elem = true ->
    exists elem', out !! i = Some elem' /\ elem' !! "age" = Some (VNum 0).
Proof.
  intros H i elem Hi Hzero.
  destruct (calcMerit_inv _ _ _ _ _ _ _ H) as (bchAddr & aging & cur & _ & _ & _ & Hloop).
  destruct (calcMerit_loop_lookup _ _ _ _ _ _ _ _ Hloop) as [_ Hat].
  destruct (Hat i elem Hi) as (elem' & Hout & Helem).
  destruct (calc_elem_inv _ _ _ _ _ _ _ _ Helem) as (ag & age & _ & Hage & ->).
  exists (<["merit" := VNum (if ag then (unit_merit S2N tokenId elem * age)%float
                             else unit_merit S2N tokenId elem)]>
            (<["age" := VNum age]> elem)).
  split; [exact Hout|].
  rewrite lookup_insert_ne by discriminate. rewrite lookup_insert_eq.
  destruct ag.
  - destruct (calc_age_inv _ _ _ _ _ _ _ Hage) as (anc & a & _ & _ & ->).
    rewrite Hzero. reflexivity.
  - rewrite Hage. reflexivity.
Qed.

(** C3. With ageing on, the age written for a confirmed UTXO is [floor2] of
    the distance from the current height to the effective height, in days of
    144 blocks, where the effective height is the one of the ancestor the
    walk returned, or the UTXO's own when the walk returned [false]; the
    merit is the unit merit times that age.  With [floor2] truncating to two
    decimals, a UTXO of height 665504 holding 5000 tokens, for which no
    ancestor is found, has at height 665800 the age 2.05 and the merit
    10250. *)
#[warnings="-inexact-float"]
Theorem confirmed_age S2N this fuel address tokenId :
  (forall l out, env_flag this MERIT_AGE = Ret true ->
     calcMerit S2N this fuel (AArray l) address tokenId = Value out ->
     forall i elem, l !! i = Some elem -> unconfirmed elem = false ->
       exists bchAddr cur ancestor age,
         toCashAddress (bchjs this) address = Ret bchAddr /\
         getBlockCount (bchjs this) = Ret cur /\
         getParentAge this fuel (get elem "tx_hash") bchAddr = Value ancestor /\
         floor2 (bchjs this)
           ((cur - ToNumber S2N (effective_height ancestor elem)) / 144)%float
           = Ret age /\
         out !! i =
           Some (<["merit" := VNum (unit_merit S2N tokenId elem * age)%float]>
                   (<["age" := VNum age]> elem)))
  /\
  (forall elem bchAddr, env_flag this MERIT_AGE = Ret true ->
     floor2 (bchjs this) = floor2_spec ->
     getBlockCount (bchjs this) = Ret 665800%float ->
     toCashAddress (bchjs this) address = Ret bchAddr ->
     truthy tokenId = true ->
     get elem "height" = VNum 665504 ->
     get elem "tokenQty" = VNum 5000 ->
     getParentAge this fuel (get elem "tx_hash") bchAddr = Value (JPrim (VBool false)) ->
     calcMerit S2N this fuel (AArray [elem]) address tokenId =
       Value [<["merit" := VNum 10250]> (<["age" := VNum 2.05]> elem)]).
Proof.
  split.
  - intros l out Hon H i elem Hi Hconf.
    destruct (calcMerit_inv _ _ _ _ _ _ _ H)
      as (bchAddr & aging & cur & Haddr & Hflag & Hcur & Hloop).
    rewrite Hon in Hflag. injection Hflag as <-.
    destruct (calcMerit_loop_lookup _ _ _ _ _ _ _ _ Hloop) as [_ Hat].
    destruct (Hat i elem Hi) as (elem' & Hout & Helem).
    destruct (calc_elem_inv _ _ _ _ _ _ _ _ Helem) as (ag & age & Hflag & Hage & ->).
    rewrite Hon in Hflag. injection Hflag as <-.
    destruct (calc_age_inv _ _ _ _ _ _ _ Hage) as (anc & a & Hanc & Hfloor & ->).
    rewrite Hconf in Hout.
    exists bchAddr, cur, anc, a. auto.
  - intros elem bchAddr Hon Hfloor Hcur Haddr Htok Hheight Hqty Hwalk.
    unfold calcMerit. rewrite Haddr. simpl. rewrite Hon. simpl.
    rewrite Hcur. simpl. unfold calc_elem. rewrite Hon. simpl.
    unfold calc_age. rewrite Hwalk. simpl. rewrite Hfloor, Hheight, Htok, Hqty.
    reflexivity.
Qed.

(** C7, as the code has it. [calcMerit] throws for every argument that is
    not an array, and that is its only check: with ageing off and an address
    the normaliser accepts, every array of records is processed, whatever
    the records hold, and gives one result per record. *)
Theorem calcMerit_checks_the_array_only S2N this fuel address tokenId :
  (forall v, calcMerit S2N this fuel (AOther v) address tokenId
             = Raised (JsError "Input hydratedUtxo must be an array")) /\
  (forall l bchAddr,
     toCashAddress (bchjs this) address = Ret bchAddr ->
     env_flag this MERIT_AGE = Ret false ->
     exists out, calcMerit S2N this fuel (AArray l) address tokenId = Value out /\
                 length out = length l).
Proof.
  split; [reflexivity|].
  intros l bchAddr Haddr Hoff. eexists. split.
  - apply (calcMerit_plain _ _ _ _ _ _ _ Haddr Hoff).
  - apply length_map.
Qed.

(** C7, the claim as stated fails: an array holding a record without any
    property is not rejected; the record comes back with the age zero and
    the merit NaN. *)
Lemma calcMerit_accepts_malformed_record :
  calcMerit Ledger.S2N Ledger.plain 0 (AArray [∅]) (VStr "addr") (VStr Ledger.PSF)
    = Value [Ledger.record [("age", VNum 0); ("merit", VNum nan)]] /\
  ~ (exists e, calcMerit Ledger.S2N Ledger.plain 0 (AArray [∅]) (VStr "addr")
                 (VStr Ledger.PSF) = Raised e).
Proof.
  assert (H : calcMerit Ledger.S2N Ledger.plain 0 (AArray [∅]) (VStr "addr")
                (VStr Ledger.PSF)
              = Value [Ledger.record [("age", VNum 0); ("merit", VNum nan)]])
    by evaluated.
  split; [exact H|]. intros [e He]. rewrite H in He. discriminate He.
Qed.

(* ===================================================================== *)
(** ** [agMerit] *)
(* ===================================================================== *)

Section AgMerit.

Variable S2N : string -> float.
Variable N2S : float -> string.
Variable this : Merit.

(** A selection that succeeded went through the normaliser and read
    [this.env]. *)
Lemma getTokenUtxos_inv address tokenId sel :
  getTokenUtxos N2S this address tokenId = Ret sel ->
  exists a b, toCashAddress (bchjs this) address = Ret a /\
              env_flag this VERBOSE_LOG = Ret b.
Proof.
  unfold getTokenUtxos. intros H.
  destruct (toCashAddress (bchjs this) address) as [a|]; simpl in H;
    [| discriminate].
  destruct (getUtxos (wallet this) a) as [u|]; simpl in H; [| discriminate].
  destruct (env_flag this VERBOSE_LOG) as [b|]; simpl in H; [| discriminate].
  eauto.
Qed.

(** The flags are read from the same [this.env]. *)
Lemma env_flag_defined F G b :
  env_flag this F = Ret b -> exists b', env_flag this G = Ret b'.
Proof.
  unfold env_flag. destruct (env this); [eauto | discriminate].
Qed.

(** The sum of the [merit] properties written by [calcMerit] with ageing
    off is the sum of the unit merits. *)
Lemma sum_merit_plain tokenId l :
  sum_merit S2N
    (map (fun elem => <["merit" := VNum (unit_merit S2N tokenId elem)]>
                        (<["age" := VNum 0]> elem)) l)
  = sum_units S2N tokenId l.
Proof.
  unfold sum_merit, sum_units.
  set (f := fun elem : obj => <["merit" := VNum (unit_merit S2N tokenId elem)]>
                                (<["age" := VNum 0]> elem)).
  generalize 0%float.
  induction l as [|x l IH]; intros acc; simpl; [reflexivity|].
  rewrite IH. f_equal. subst f. unfold get at 1. simpl.
  rewrite lookup_insert_eq. reflexivity.
Qed.

(** [agMerit] past its check of the address and its selection. *)
Lemma agMerit_selected fuel address tokenId sel :
  truthy address = true ->
  getTokenUtxos N2S this address tokenId = Ret sel ->
  agMerit S2N N2S this fuel address tokenId =
    (meritUtxos ← calcMerit S2N this fuel (AArray sel) address tokenId;
     Value (sum_merit S2N meritUtxos)).
Proof.
  intros Haddr Hsel. unfold agMerit. rewrite Haddr, Hsel.
  destruct (getTokenUtxos_inv _ _ _ Hsel) as (a & b & _ & Hb).
  cbn [negb lift mbind outcome_bind]. rewrite Hb. reflexivity.
Qed.

End AgMerit.

(** C5. [agMerit] throws its error for every address that is empty (a falsy
    value); and for an address whose selection is empty it returns zero,
    provided the height of the chain, which is fetched when ageing is on,
    can be fetched. *)
Theorem agMerit_empty S2N N2S this fuel address tokenId :
  (truthy address = false ->
   agMerit S2N N2S this fuel address tokenId
     = Raised (JsError "an address must be specified!")) /\
  (truthy address = true ->
   getTokenUtxos N2S this address tokenId = Ret [] ->
   (env_flag this MERIT_AGE = Ret true ->
    exists h, getBlockCount (bchjs this) = Ret h) ->
   agMerit S2N N2S this fuel address tokenId = Value 0%float).
Proof.
  split; intros Haddr.
  - unfold agMerit. rewrite Haddr. reflexivity.
  - intros Hsel Hheight.
    rewrite (agMerit_selected S2N N2S this fuel address tokenId [] Haddr Hsel).
    destruct (getTokenUtxos_inv _ _ _ _ _ Hsel) as (a & b & Ha & Hb).
    unfold calcMerit. rewrite Ha. simpl.
    destruct (env_flag_defined this VERBOSE_LOG MERIT_AGE b Hb) as [aging Hflag].
    rewrite Hflag. simpl. destruct aging; simpl.
    + destruct (Hheight Hflag) as [h ->]. reflexivity.
    + reflexivity.
Qed.

(** C1, as the code has it. With ageing off, [agMerit] is the sum of the
    unit merits of the selected UTXOs (the token quantity when a token is
    selected, the value divided by 1e8 otherwise), accumulated from zero in
    the order of the selection with the addition of binary64 numbers. *)
Theorem agMerit_plain_sum S2N N2S this fuel address tokenId utxos :
  truthy address = true ->
  env_flag this MERIT_AGE = Ret false ->
  getTokenUtxos N2S this address tokenId = Ret utxos ->
  agMerit S2N N2S this fuel address tokenId = Value (sum_units S2N tokenId utxos).
Proof.
  intros Haddr Hoff Hsel.
  rewrite (agMerit_selected S2N N2S this fuel address tokenId utxos Haddr Hsel).
  destruct (getTokenUtxos_inv _ _ _ _ _ Hsel) as (a & b & Ha & Hb).
  rewrite (calcMerit_plain S2N this fuel utxos address a tokenId Ha Hoff).
  cbn [mbind outcome_bind]. rewrite sum_merit_plain. reflexivity.
Qed.

(** C1, the claim as stated fails: the sum depends on the order of the
    UTXOs.  Coins of 0.1, 0.2 and 0.3 add up to 0.6000000000000001 in this
    order and to 0.6 in the reverse order. *)
Lemma agMerit_depends_on_order :
  getTokenUtxos Ledger.N2S Ledger.plain (VStr "addr") VUndef = Ret Ledger.coins /\
  getTokenUtxos Ledger.N2S Ledger.plain_rev (VStr "addr") VUndef
    = Ret (rev Ledger.coins) /\
  Permutation Ledger.coins (rev Ledger.coins) /\
  exists x y,
    agMerit Ledger.S2N Ledger.N2S Ledger.plain 0 (VStr "addr") VUndef = Value x /\
    agMerit Ledger.S2N Ledger.N2S Ledger.plain_rev 0 (VStr "addr") VUndef = Value y /\
    PrimFloat.ltb y x = true /\ x <> y.
Proof.
  split; [evaluated|]. split; [evaluated|].
  split; [apply Permutation_rev|].
  exists (0 + 10000000 / 100000000 + 20000000 / 100000000
            + 30000000 / 100000000)%float,
         (0 + 30000000 / 100000000 + 20000000 / 100000000
            + 10000000 / 100000000)%float.
  split; [evaluated|]. split; [evaluated|]. split; [evaluated|].
  intros H. apply (f_equal (fun z => PrimFloat.eqb z (6 / 10)%float)) in H.
  vm_compute in H. discriminate H.
Qed.

(* ===================================================================== *)
(** ** [getTokenUtxos] *)
(* ===================================================================== *)

(** [String.prefix] is a prefix test. *)
Lemma prefix_append needle hay :
  String.prefix needle hay = true <-> exists post, hay = needle +:+ post.
Proof.
  revert hay. induction needle as [|c needle IH]; intros hay.
  - split; [intros _; exists hay; reflexivity | intros _; destruct hay; reflexivity].
  - destruct hay as [|c' hay]; simpl.
    + split; [discriminate | intros [post H]; discriminate H].
    + destruct (Ascii.ascii_dec c c') as [<- | Hne].
      * rewrite IH. split; intros [post H]; exists post.
        -- subst hay. reflexivity.
        -- change (String c hay = String c (needle +:+ post)) in H. congruence.
      * split; [discriminate |].
        intros [post H].
        change (String c' hay = String c (needle +:+ post)) in H. congruence.
Qed.

Lemma includes_unfold hay needle :
  includes hay needle =
    String.prefix needle hay ||
    match hay with
    | EmptyString => false
    | String _ hay' => includes hay' needle
    end.
Proof. destruct hay; reflexivity. Qed.

(** [includes] is substring containment. *)
Lemma includes_substring hay needle :
  includes hay needle = true <->
  exists pre post, hay = pre +:+ needle +:+ post.
Proof.
  split.
  - induction hay as [|c hay IH]; rewrite includes_unfold; intros H;
      apply orb_true_iff in H as [H | H].
    + apply prefix_append in H as [post ->]. exists "", post. reflexivity.
    + discriminate.
    + apply prefix_append in H as [post H]. exists "", post. exact H.
    + destruct (IH H) as (pre & post & ->).
      exists (String c pre), post. reflexivity.
  - intros (pre & post & ->). induction pre as [|c pre IH];
      rewrite includes_unfold; apply orb_true_iff.
    + left. apply prefix_append. exists post. reflexivity.
    + right. exact IH.
Qed.

Lemma filter_res_token N2S t l :
  t <> "" ->
  Forall tokenId_is_string l ->
  filter_res (token_match N2S (VStr t)) l = Ret (List.filter (has_token t) l).
Proof.
  intros Ht Hall. induction Hall as [|x l Hx Hall IH]; simpl; [reflexivity|].
  rewrite IH. unfold token_match, has_token, tokenId_is_string in *.
  destruct (truthy (get x "tokenId")) eqn:Htruthy.
  - destruct (Hx eq_refl) as [s Hs]. rewrite Hs. simpl.
    destruct (includes s t); reflexivity.
  - destruct (get x "tokenId") as [| | | |s]; simpl; try reflexivity.
    simpl in Htruthy. apply negb_false_iff, String.eqb_eq in Htruthy. subst s.
    simpl. destruct t; [congruence | reflexivity].
Qed.

(** C6. Past the normaliser and the fetch, [getTokenUtxos] with a token id
    returns, in their order, exactly the token UTXOs whose [tokenId] holds
    the requested id as a substring; with no token id it returns, in their
    order, exactly the native UTXOs whose [tokenId] is falsy, which for
    well-formed records are the ones with no [tokenId] at all. *)
Theorem getTokenUtxos_selects N2S this address a utxos flag :
  toCashAddress (bchjs this) address = Ret a ->
  getUtxos (wallet this) a = Ret utxos ->
  env_flag this VERBOSE_LOG = Ret flag ->
  (forall t, t <> "" -> Forall tokenId_is_string (slpTokens utxos) ->
     getTokenUtxos N2S this address (VStr t)
       = Ret (List.filter (has_token t) (slpTokens utxos)) /\
     forall elem, elem ∈ List.filter (has_token t) (slpTokens utxos) <->
       elem ∈ slpTokens utxos /\
       exists s pre post, elem !! "tokenId" = Some (VStr s) /\
                          s = pre +:+ t +:+ post)
  /\
  (forall tokenId, truthy tokenId = false ->
     getTokenUtxos N2S this address tokenId
       = Ret (List.filter native_match (bchUtxos utxos)) /\
     (forall elem, elem ∈ List.filter native_match (bchUtxos utxos) <->
        elem ∈ bchUtxos utxos /\ truthy (get elem "tokenId") = false) /\
     (Forall well_formed_tokenId (bchUtxos utxos) ->
      forall elem, elem ∈ List.filter native_match (bchUtxos utxos) <->
        elem ∈ bchUtxos utxos /\ elem !! "tokenId" = None)).
Proof.
  intros Ha Hu Hflag. split.
  - intros t Ht Hall. split.
    + unfold getTokenUtxos. rewrite Ha. simpl. rewrite Hu. simpl.
      rewrite Hflag. simpl.
      destruct t as [|c t]; [congruence|]. simpl.
      apply (filter_res_token N2S (String c t)); assumption.
    + intros elem. rewrite !list_elem_of_In, filter_In.
      unfold has_token, get.
      split.
      * intros [Hin Hhas]. split; [exact Hin|].
        destruct (elem !! "tokenId") as [[| | | |s]|]; simpl in Hhas;
          try discriminate.
        apply includes_substring in Hhas as (pre & post & ->). eauto.
      * intros [Hin (s & pre & post & -> & ->)]. split; [exact Hin|].
        simpl. apply includes_substring. eauto.
  - intros tokenId Hnone. split; [| split].
    + unfold getTokenUtxos. rewrite Ha. simpl. rewrite Hu. simpl.
      rewrite Hflag. simpl. rewrite Hnone. reflexivity.
    + intros elem. rewrite !list_elem_of_In, filter_In.
      unfold native_match. rewrite negb_true_iff. reflexivity.
    + intros Hwf elem. rewrite !list_elem_of_In, filter_In.
      unfold native_match. rewrite negb_true_iff.
      split; intros [Hin H]; (split; [exact Hin|]).
      * rewrite Forall_forall in Hwf.
        destruct (Hwf elem) as [Hnot | (s & Hs & Hsome)];
          [apply list_elem_of_In; exact Hin | exact Hnot |].
        unfold get in H. rewrite Hsome in H. simpl in H.
        apply negb_false_iff, String.eqb_eq in H. congruence.
      * unfold get. rewrite H. reflexivity.
Qed.

(* ===================================================================== *)
(** ** [getParentAge]: the ancestry walk *)
(* ===================================================================== *)

Section Walk.

Variable this : Merit.
Variable addr : string.

(** A falsy id ends the loop at once, whatever fuel is left. *)
Lemma getParentAge_loop_falsy fuel txid oldest :
  truthy txid = false ->
  getParentAge_loop this fuel txid addr oldest = Value oldest.
Proof. intros H. destruct fuel; simpl; rewrite H; reflexivity. Qed.

(** One iteration of the loop on a truthy id whose parent is found. *)
Lemma getParentAge_loop_found fuel txid oldest p :
  truthy txid = true ->
  findTokenParent this txid addr = Ret (JObj p) ->
  getParentAge_loop this (S fuel) txid addr oldest =
    getParentAge_loop this fuel (get p "tx_hash") addr (JObj p).
Proof. intros Ht Hp. simpl. rewrite Ht, Hp. reflexivity. Qed.

(** One iteration of the loop on a truthy id that has no parent. *)
Lemma getParentAge_loop_none fuel txid oldest :
  truthy txid = true ->
  findTokenParent this txid addr = Ret (JPrim (VBool false)) ->
  getParentAge_loop this (S fuel) txid addr oldest = Value oldest.
Proof.
  intros Ht Hp. simpl. rewrite Ht, Hp. simpl.
  apply getParentAge_loop_falsy. reflexivity.
Qed.

(** A walk that has finished is not changed by more fuel. *)
Lemma getParentAge_loop_more_fuel fuel : forall fuel' txid oldest,
  fuel <= fuel' ->
  getParentAge_loop this fuel txid addr oldest <> OutOfFuel ->
  getParentAge_loop this fuel' txid addr oldest
    = getParentAge_loop this fuel txid addr oldest.
Proof.
  induction fuel as [|fuel IH]; intros fuel' txid oldest Hle Hfin.
  - simpl in *. destruct (truthy txid) eqn:Ht; [congruence|].
    apply getParentAge_loop_falsy. exact Ht.
  - destruct fuel' as [|fuel']; [lia|]. simpl in *.
    destruct (truthy txid); [| reflexivity].
    destruct (findTokenParent this txid addr) as [p|]; simpl in *;
      [| reflexivity].
    destruct (Get p "tx_hash") as [t|]; simpl in *; [| reflexivity].
    apply IH; [lia | exact Hfin].
Qed.

(** A walk that returns has followed the chain of the resolved parents to
    its end, with at most one unit of fuel per parent. *)
Lemma getParentAge_loop_chain fuel : forall txid oldest v,
  getParentAge_loop this fuel txid addr oldest = Value v ->
  exists chain, ancestry this addr txid chain /\
    length chain <= fuel /\
    v = match last chain with Some p => JObj p | None => oldest end.
Proof.
  induction fuel as [|fuel IH]; intros txid oldest v H; simpl in H.
  - destruct (truthy txid) eqn:Ht; [discriminate|]. injection H as <-.
    exists []. split; [apply ancestry_falsy; exact Ht|].
    split; [simpl; lia | reflexivity].
  - destruct (truthy txid) eqn:Ht.
    + destruct (findTokenParent this txid addr) as [p|] eqn:Hp; simpl in H;
        [| discriminate].
      destruct (findTokenParent_shape _ _ _ _ Hp) as [-> | [o ->]]; simpl in H.
      * rewrite getParentAge_loop_falsy in H by reflexivity. injection H as <-.
        exists []. split; [apply ancestry_end; assumption|].
        split; [simpl; lia | reflexivity].
      * destruct (IH _ _ _ H) as (chain & Hchain & Hlen & ->).
        exists (o :: chain). split; [apply ancestry_step; assumption|].
        split; [simpl; lia|].
        rewrite last_cons. destruct (last chain); reflexivity.
    + injection H as <-. exists []. split; [apply ancestry_falsy; exact Ht|].
      split; [simpl; lia | reflexivity].
Qed.

(** The loop along a chain of found parents whose last id has no parent:
    it returns the last record of the chain, or the record it held when the
    chain is empty. *)
Lemma getParentAge_loop_resolves txid chain t :
  resolves this addr txid chain t ->
  truthy t = true ->
  findTokenParent this t addr = Ret (JPrim (VBool false)) ->
  forall fuel oldest,
    getParentAge_loop this (S (length chain) + fuel) txid addr oldest
      = Value (match last chain with Some p => JObj p | None => oldest end).
Proof.
  intros Hchain Ht Hnone.
  induction Hchain as [txid | txid p chain t Htxid Hp Hchain IH];
    intros fuel oldest.
  - apply getParentAge_loop_none; assumption.
  - change (S (length (p :: chain)) + fuel) with (S (S (length chain) + fuel)).
    rewrite (getParentAge_loop_found (S (length chain) + fuel) txid oldest p
               Htxid Hp).
    rewrite (IH Ht Hnone). rewrite last_cons.
    destruct (last chain); reflexivity.
Qed.

(** An error raised by the loop was thrown by the resolution of an id the
    walk has reached through found parents. *)
Lemma getParentAge_loop_raised fuel : forall txid oldest e,
  getParentAge_loop this fuel txid addr oldest = Raised e ->
  exists chain t,
    resolves this addr txid chain t /\ length chain < fuel /\
    truthy t = true /\ findTokenParent this t addr = Throw e.
Proof.
  induction fuel as [|fuel IH]; intros txid oldest e H; simpl in H.
  - destruct (truthy txid); discriminate.
  - destruct (truthy txid) eqn:Ht; [| discriminate].
    destruct (findTokenParent this txid addr) as [p|e'] eqn:Hp; simpl in H.
    + destruct (findTokenParent_shape _ _ _ _ Hp) as [-> | [o ->]]; simpl in H.
      * rewrite getParentAge_loop_falsy in H by reflexivity. discriminate.
      * destruct (IH _ _ _ H) as (chain & t & Hchain & Hlen & Htt & Hthrow).
        exists (o :: chain), t. split; [apply resolves_step; assumption|].
        split; [simpl; lia | auto].
    + injection H as <-. exists [], txid.
      split; [apply resolves_nil|]. split; [simpl; lia | auto].
Qed.

Section Levels.

(** Every resolved parent lies on a lower level than its child. *)
Variable level : prim -> nat.
Hypothesis parents_below : forall t p,
  truthy t = true ->
  findTokenParent this t addr = Ret (JObj p) ->
  level (get p "tx_hash") < level t.

Lemma ancestry_length txid chain :
  ancestry this addr txid chain -> length chain <= level txid.
Proof.
  induction 1 as [txid Ht | txid Ht Hp | txid p chain Ht Hp Hchain IH];
    simpl; [lia | lia |].
  pose proof (parents_below _ _ Ht Hp). lia.
Qed.

Lemma getParentAge_loop_finishes K : forall txid oldest,
  level txid < K ->
  getParentAge_loop this K txid addr oldest <> OutOfFuel.
Proof.
  induction K as [|K IH]; intros txid oldest Hlevel; [lia|]. simpl.
  destruct (truthy txid) eqn:Ht; [| discriminate].
  destruct (findTokenParent this txid addr) as [p|] eqn:Hp; simpl;
    [| discriminate].
  destruct (findTokenParent_shape _ _ _ _ Hp) as [-> | [o ->]]; simpl.
  - rewrite getParentAge_loop_falsy by reflexivity. discriminate.
  - apply IH. pose proof (parents_below _ _ Ht Hp). lia.
Qed.

End Levels.

End Walk.

(** C9. In the walk, reading [tx_hash] from what [findTokenParent] returned
    never throws.  When the walk from [txid] has found the parent records of
    [chain] one after the other and the next resolution yields the empty
    result [false], the read gives [undefined], the loop ends without an
    error, and the walk returns the best-known parent record: the last
    record found, or [false] when no parent was ever found (in the loop
    started with a record held, that record).  The fuel is the number of
    resolutions made, one per record found and one for the empty result,
    and any fuel above it. *)
Theorem empty_result_ends_walk this addr txid chain t fuel oldest :
  resolves this addr txid chain t ->
  truthy t = true ->
  findTokenParent this t addr = Ret (JPrim (VBool false)) ->
  Get (JPrim (VBool false)) "tx_hash" = Ret VUndef /\
  (forall t' v, findTokenParent this t' addr = Ret v ->
     exists next, Get v "tx_hash" = Ret next) /\
  getParentAge_loop this (S (length chain) + fuel) txid addr oldest
    = Value (match last chain with Some p => JObj p | None => oldest end) /\
  getParentAge this (S (length chain) + fuel) txid addr = Value (deepest chain).
Proof.
  intros Hchain Ht Hnone. split; [reflexivity|]. split; [| split].
  - intros t' v Hv. apply Get_false_or_record.
    apply (findTokenParent_shape this t' addr v Hv).
  - apply (getParentAge_loop_resolves this addr txid chain t Hchain Ht Hnone).
  - apply (getParentAge_loop_resolves this addr txid chain t Hchain Ht Hnone).
Qed.

(** C8. On a ledger whose resolved parents lie on strictly lower levels
    than their children (so the ancestry has no cycle), a walk that starts
    below level [K], that is, in a graph of [K] levels, finishes within [K]
    iterations, each of which is one resolution step; more fuel does not
    change its outcome; and when it returns, it returns the last record of
    the chain of the resolved parents, which has fewer than [K] links. *)
Theorem getParentAge_terminates this addr (level : prim -> nat) K txid :
  (forall t p, truthy t = true ->
     findTokenParent this t addr = Ret (JObj p) ->
     level (get p "tx_hash") < level t) ->
  level txid < K ->
  getParentAge this K txid addr <> OutOfFuel /\
  (forall fuel, K <= fuel ->
     getParentAge this fuel txid addr = getParentAge this K txid addr) /\
  (forall v, getParentAge this K txid addr = Value v ->
     exists chain, ancestry this addr txid chain /\
       length chain < K /\ v = deepest chain).
Proof.
  intros Hbelow Hlevel.
  assert (Hfin : getParentAge this K txid addr <> OutOfFuel)
    by (apply (getParentAge_loop_finishes this addr level Hbelow); exact Hlevel).
  split; [exact Hfin|]. split.
  - intros fuel Hle. apply getParentAge_loop_more_fuel; assumption.
  - intros v Hv.
    destruct (getParentAge_loop_chain this addr _ _ _ _ Hv)
      as (chain & Hchain & _ & ->).
    exists chain. split; [exact Hchain|]. split; [| reflexivity].
    pose proof (ancestry_length this addr level Hbelow _ _ Hchain). lia.
Qed.

(* ===================================================================== *)
(** ** [findTokenParent]: the store of history entries and the last match *)
(* ===================================================================== *)

Section ParentMatcher.

Variable this : Merit.

Lemma touched_tx_hash o0 o : touched o0 o -> get o "tx_hash" = get o0 "tx_hash".
Proof.
  intros [-> | [v ->]]; [reflexivity|].
  unfold get. rewrite lookup_insert_ne by discriminate. reflexivity.
Qed.

Lemma touched_tx_pos o0 o v :
  touched o0 o -> <["tx_pos" := v]> o = <["tx_pos" := v]> o0.
Proof.
  intros [-> | [w ->]]; [reflexivity|]. apply insert_insert_eq.
Qed.

Lemma first_tx_inv ds d : first_tx ds = Ret d -> exists ds', ds = d :: ds'.
Proof. destruct ds; simpl; intros H; [discriminate|]. injection H as ->. eauto. Qed.

Lemma eval_fold_app childTokenId evs1 evs2 acc :
  eval_fold this childTokenId (evs1 ++ evs2) acc =
    (acc' ← eval_fold this childTokenId evs1 acc; eval_fold this childTokenId evs2 acc').
Proof.
  revert acc. induction evs1 as [|ev evs1 IH]; intros acc; simpl; [reflexivity|].
  destruct (getTxData (wallet this) (get ev.2 "tx_hash")) as [ds|]; simpl;
    [| reflexivity].
  destruct (first_tx ds) as [d|]; simpl; [| reflexivity]. apply IH.
Qed.

(** The loop over the matches of one candidate, on the store, does what
    the evaluations of these matches do on values. *)
Lemma match_loop_eval childTokenId (c : Vin) H0 js : forall st acc,
  store_inv this childTokenId H0 st acc ->
  Forall (fun j => j < length H0) js ->
  match match_loop this childTokenId (vin_vout c) js st with
  | Throw e =>
      eval_fold this childTokenId (map (fun j => (c, default ∅ (H0 !! j))) js) acc
        = Throw e
  | Ret st' =>
      exists acc',
        eval_fold this childTokenId (map (fun j => (c, default ∅ (H0 !! j))) js) acc
          = Ret acc' /\
        store_inv this childTokenId H0 st' acc'
  end.
Proof.
  induction js as [|j js IH]; intros [H pi] acc Hinv Hjs; simpl.
  - exists acc. split; [reflexivity | exact Hinv].
  - apply Forall_cons in Hjs as [Hj Hjs].
    destruct Hinv as [Hall Hpi]. simpl in Hall, Hpi.
    destruct (lookup_lt_is_Some_2 H0 j Hj) as [o0 Ho0].
    destruct (Forall2_lookup_l _ _ _ _ _ Hall Ho0) as (o & Ho & Htouched).
    rewrite Ho, Ho0. simpl.
    rewrite (touched_tx_hash _ _ Htouched).
    destruct (getTxData (wallet this) (get o0 "tx_hash")) as [ds|] eqn:Hds;
      simpl; [| reflexivity].
    destruct (first_tx ds) as [d|] eqn:Hd; simpl; [| reflexivity].
    rewrite (touched_tx_pos _ _ (vin_vout c) Htouched).
    apply IH; [| exact Hjs].
    unfold parent_record. simpl. split; simpl.
    + rewrite <- (list_insert_id H0 j o0 Ho0).
      apply Forall2_insert; [exact Hall|]. right. eauto.
    + assert (Hlt : j < length H)
        by (rewrite <- (Forall2_length _ _ _ Hall); exact Hj).
      destruct (valid_parent childTokenId d) eqn:Hvalid.
      * exists (<["tx_pos" := vin_vout c]> o0), d.
        destruct (first_tx_inv _ _ Hd) as [ds' ->]. exists ds'.
        split; [apply list_lookup_insert_eq; exact Hlt|].
        split; [reflexivity|]. split; [| exact Hvalid].
        rewrite (touched_tx_hash o0); [exact Hds | right; eauto].
      * destruct pi as [j0|]; [| exact Hpi].
        destruct Hpi as (o1 & d1 & ds1 & Ho1 & Hacc & Hds1 & Hvalid1).
        destruct (decide (j0 = j)) as [-> | Hne].
        -- rewrite Ho in Ho1. injection Ho1 as <-.
           rewrite (touched_tx_hash _ _ Htouched), Hds in Hds1.
           injection Hds1 as ->. simpl in Hd. injection Hd as ->. congruence.
        -- exists o1, d1, ds1. split; [| auto].
           rewrite list_lookup_insert_ne by congruence. exact Ho1.
Qed.

(** The matches of a candidate by position give back the matching
    entries. *)
Lemma filter_positions (P : obj -> bool) (l : list obj) : forall pre : list obj,
  map (fun j => default ∅ ((pre ++ l)%list !! j))
      (List.filter (fun j => P (default ∅ ((pre ++ l)%list !! j)))
         (seq (length pre) (length l)))
  = List.filter P l.
Proof.
  induction l as [|x l IH]; intros pre; [reflexivity|].
  cbn [length seq List.filter].
  rewrite list_lookup_middle by reflexivity.
  change (default ∅ (Some x)) with x.
  assert (Hrest : map (fun j => default ∅ ((pre ++ x :: l)%list !! j))
            (List.filter (fun j => P (default ∅ ((pre ++ x :: l)%list !! j)))
               (seq (S (length pre)) (length l)))
          = List.filter P l).
  { specialize (IH (pre ++ [x])%list). rewrite <- app_assoc in IH. simpl in IH.
    rewrite length_app in IH. simpl in IH.
    replace (length pre + 1) with (S (length pre)) in IH by lia. exact IH. }
  destruct (P x); cbn [map]; [| exact Hrest].
  rewrite list_lookup_middle by reflexivity.
  rewrite Hrest. reflexivity.
Qed.

Lemma match_indices_touched H0 H t :
  Forall2 touched H0 H -> match_indices H t = match_indices H0 t.
Proof.
  intros Hall. unfold match_indices.
  rewrite <- (Forall2_length _ _ _ Hall).
  apply filter_ext_in. intros j Hj. apply in_seq in Hj.
  destruct (lookup_lt_is_Some_2 H0 j) as [o0 Ho0]; [lia|].
  destruct (Forall2_lookup_l _ _ _ _ _ Hall Ho0) as (o & Ho & Htouched).
  rewrite Ho, Ho0. simpl. rewrite (touched_tx_hash _ _ Htouched). reflexivity.
Qed.

Lemma match_indices_bound H0 t : Forall (fun j => j < length H0) (match_indices H0 t).
Proof.
  apply Forall_forall. intros j Hj. apply list_elem_of_In in Hj.
  unfold match_indices in Hj. apply filter_In in Hj as [Hj _].
  apply in_seq in Hj. lia.
Qed.

Lemma match_indices_entries (c : Vin) H0 :
  map (fun j => (c, default ∅ (H0 !! j))) (match_indices H0 (vin_txid c))
  = map (pair c)
      (List.filter (fun e => strict_eq (get e "tx_hash") (vin_txid c)) H0).
Proof.
  rewrite <- (filter_positions
                (fun e => strict_eq (get e "tx_hash") (vin_txid c)) H0 []).
  rewrite map_map. reflexivity.
Qed.

(** The loop over the candidates, on the store, does what the evaluations
    do on values. *)
Lemma parent_loop_eval childTokenId H0 parentUtxos : forall st acc,
  store_inv this childTokenId H0 st acc ->
  match parent_loop this childTokenId parentUtxos st with
  | Throw e =>
      eval_fold this childTokenId (evaluations parentUtxos H0) acc = Throw e
  | Ret st' =>
      exists acc',
        eval_fold this childTokenId (evaluations parentUtxos H0) acc = Ret acc' /\
        store_inv this childTokenId H0 st' acc'
  end.
Proof.
  induction parentUtxos as [|c rest IH]; intros st acc Hinv; simpl.
  - exists acc. split; [reflexivity | exact Hinv].
  - unfold evaluations. simpl. fold (evaluations rest H0).
    rewrite eval_fold_app, <- match_indices_entries.
    rewrite (match_indices_touched H0 st.1 (vin_txid c) (proj1 Hinv)).
    pose proof (match_loop_eval childTokenId c H0
                  (match_indices H0 (vin_txid c)) st acc Hinv
                  (match_indices_bound H0 (vin_txid c))) as Hstep.
    destruct (match_loop this childTokenId (vin_vout c)
                (match_indices H0 (vin_txid c)) st) as [st'|e]; simpl.
    + destruct Hstep as (acc' & -> & Hinv'). simpl. apply IH. exact Hinv'.
    + rewrite Hstep. reflexivity.
Qed.

(** When every fetch answers a record, the evaluations end on the parent
    record of the last accepted pair. *)
Lemma eval_fold_last childTokenId evs : forall acc,
  (forall ev, ev ∈ evs -> is_Some (tx_of this (get ev.2 "tx_hash"))) ->
  eval_fold this childTokenId evs acc =
    Ret (match last (List.filter (accepted this childTokenId) evs) with
         | Some ev => Some (parent_record ev)
         | None => acc
         end).
Proof.
  induction evs as [|ev evs IH]; intros acc Hall; simpl; [reflexivity|].
  assert (Hev : is_Some (tx_of this (get ev.2 "tx_hash")))
    by (apply Hall; left).
  unfold accepted at 1. unfold tx_of in Hev |- *.
  destruct (getTxData (wallet this) (get ev.2 "tx_hash")) as [[|d ds]|];
    try (destruct Hev as [? Hev]; discriminate Hev).
  simpl. fold (valid_parent childTokenId d).
  rewrite IH by (intros ev' Hin; apply Hall; right; exact Hin).
  destruct (valid_parent childTokenId d); [| reflexivity].
  rewrite last_cons.
  destruct (last (List.filter (accepted this childTokenId) evs)); reflexivity.
Qed.

End ParentMatcher.

(** C2. When the fetches answer, [findTokenParent] returns the parent
    record of the last pair, in the order of evaluation (the inputs of the
    child in their order and, for each, the history entries with its
    transaction id in their order), whose fetched record carries the token
    id of the child and is flagged as a valid token transaction; it returns
    [false] when no pair is accepted.  The parent record is the history
    entry with the output index of the input as [tx_pos]. *)
Theorem findTokenParent_last_valid this txid addr child others txHistory :
  getTxData (wallet this) txid = Ret (child :: others) ->
  getTransactions (wallet this) addr = Ret txHistory ->
  (forall ev, ev ∈ evaluations (tx_vin child) txHistory ->
     is_Some (tx_of this (get ev.2 "tx_hash"))) ->
  findTokenParent this txid addr =
    Ret (last_accepted this (tx_tokenId child)
           (evaluations (tx_vin child) txHistory)).
Proof.
  intros Hchild Hhist Hall. unfold findTokenParent.
  rewrite Hchild. simpl. rewrite Hhist. simpl.
  assert (Hinv : store_inv this (tx_tokenId child) txHistory (txHistory, None) None).
  { split; simpl; [| reflexivity].
    apply Forall2_same_length_lookup_2; [reflexivity|].
    intros i x y Hx Hy. left. congruence. }
  pose proof (parent_loop_eval this (tx_tokenId child) txHistory
                (tx_vin child) _ _ Hinv) as Hloop.
  rewrite (eval_fold_last this _ _ None Hall) in Hloop.
  unfold last_accepted.
  destruct (parent_loop this (tx_tokenId child) (tx_vin child) (txHistory, None))
    as [[H pi]|e]; simpl; [| discriminate Hloop].
  destruct Hloop as (acc' & Hacc & _ & Hpi). simpl in Hpi.
  injection Hacc as Hacc.
  destruct pi as [j|].
  - destruct Hpi as (o & d & ds & Ho & -> & _). rewrite Ho. simpl.
    destruct (last (List.filter (accepted this (tx_tokenId child))
                      (evaluations (tx_vin child) txHistory)));
      [congruence | discriminate].
  - subst acc'.
    destruct (last (List.filter (accepted this (tx_tokenId child))
                      (evaluations (tx_vin child) txHistory)));
      [discriminate | reflexivity].
Qed.

(* ===================================================================== *)
(** ** The properties on the worked ledger *)
(* ===================================================================== *)

(** [calcMerit] on the token UTXOs of the ledger, ageing on: it returns,
    and what it returns is the two records with their ages and merits. *)
Lemma calcMerit_frame_witness :
  (exists out,
     calcMerit Ledger.S2N Ledger.aged 3 (AArray [Ledger.u1; Ledger.u3])
       (VStr "addr") (VStr Ledger.PSF) = Value out) /\
  calcMerit Ledger.S2N Ledger.aged 3 (AArray [Ledger.u1; Ledger.u3])
    (VStr "addr") (VStr Ledger.PSF) = Value [Ledger.aged_u1; Ledger.aged_u3] /\
  length [Ledger.aged_u1; Ledger.aged_u3] = length [Ledger.u1; Ledger.u3] /\
  forall i elem, [Ledger.u1; Ledger.u3] !! i = Some elem ->
    exists elem' age merit,
      [Ledger.aged_u1; Ledger.aged_u3] !! i = Some elem' /\
      elem' !! "age" = Some (VNum age) /\
      elem' !! "merit" = Some (VNum merit) /\
      forall k, k <> "age" -> k <> "merit" -> elem' !! k = elem !! k.
Proof.
  split; [| split; [evaluated|]].
  - apply (proj1 (calcMerit_frame Ledger.S2N Ledger.aged 3
                    [Ledger.u1; Ledger.u3] (VStr "addr") (VStr Ledger.PSF))
             "addr" true 665800%float eq_refl eq_refl).
    intros _. split; [reflexivity|].
    repeat constructor;
      [exists (205 / 100)%float; evaluated | exists 0%float; evaluated].
  - apply (proj2 (calcMerit_frame Ledger.S2N Ledger.aged 3
                    [Ledger.u1; Ledger.u3] (VStr "addr") (VStr Ledger.PSF))).
    evaluated.
Defined.

(** The unconfirmed UTXO [u3] has an ancestor of height 600000, and the
    age zero. *)
Lemma unconfirmed_age_zero_witness :
  getParentAge Ledger.aged 3 (VStr "t3") "addr" = Value (JObj Ledger.parent_t1) /\
  get Ledger.parent_t1 "height" = VNum 600000 /\
  exists elem', [Ledger.aged_u3] !! 0 = Some elem' /\
                elem' !! "age" = Some (VNum 0).
Proof.
  split; [evaluated|]. split; [evaluated|].
  apply (unconfirmed_age_zero Ledger.S2N Ledger.aged 3 [Ledger.u3]
           (VStr "addr") (VStr Ledger.PSF) [Ledger.aged_u3]
           ltac:(evaluated) 0 Ledger.u3 eq_refl ltac:(evaluated)).
Defined.

(** The confirmed UTXO [u1]: no ancestor, the age 2.05 and the merit
    10250. *)
#[warnings="-inexact-float"]
Lemma confirmed_age_witness :
  (exists bchAddr cur ancestor age,
     toCashAddress (bchjs Ledger.aged) (VStr "addr") = Ret bchAddr /\
     getBlockCount (bchjs Ledger.aged) = Ret cur /\
     getParentAge Ledger.aged 3 (get Ledger.u1 "tx_hash") bchAddr = Value ancestor /\
     floor2 (bchjs Ledger.aged)
       ((cur - ToNumber Ledger.S2N (effective_height ancestor Ledger.u1)) / 144)%float
       = Ret age /\
     [Ledger.aged_u1] !! 0 =
       Some (<["merit" := VNum (unit_merit Ledger.S2N (VStr Ledger.PSF) Ledger.u1 * age)%float]>
               (<["age" := VNum age]> Ledger.u1))) /\
  calcMerit Ledger.S2N Ledger.aged 3 (AArray [Ledger.u1])
    (VStr "addr") (VStr Ledger.PSF) =
    Value [<["merit" := VNum 10250]> (<["age" := VNum 2.05]> Ledger.u1)].
Proof.
  split.
  - apply (proj1 (confirmed_age Ledger.S2N Ledger.aged 3 (VStr "addr")
                    (VStr Ledger.PSF))
             [Ledger.u1] [Ledger.aged_u1] eq_refl ltac:(evaluated)
             0 Ledger.u1 eq_refl ltac:(evaluated)).
  - apply (proj2 (confirmed_age Ledger.S2N Ledger.aged 3 (VStr "addr")
                    (VStr Ledger.PSF)) Ledger.u1 "addr");
      first [reflexivity | evaluated].
Defined.

(** [calcMerit] on a string, and on an array with a record without
    properties. *)
Lemma calcMerit_checks_the_array_only_witness :
  calcMerit Ledger.S2N Ledger.plain 0 (AOther (JPrim (VStr "utxos")))
    (VStr "addr") (VStr Ledger.PSF)
    = Raised (JsError "Input hydratedUtxo must be an array") /\
  exists out,
    calcMerit Ledger.S2N Ledger.plain 0 (AArray [∅; Ledger.u1])
      (VStr "addr") (VStr Ledger.PSF) = Value out /\
    length out = length [(∅ : obj); Ledger.u1].
Proof.
  split.
  - apply (proj1 (calcMerit_checks_the_array_only Ledger.S2N Ledger.plain 0
                    (VStr "addr") (VStr Ledger.PSF))).
  - apply (proj2 (calcMerit_checks_the_array_only Ledger.S2N Ledger.plain 0
                    (VStr "addr") (VStr Ledger.PSF)) [∅; Ledger.u1] "addr");
      reflexivity.
Defined.

(** [agMerit] on the empty address, and on an address that holds no UTXO of
    the token asked for. *)
Lemma agMerit_empty_witness :
  agMerit Ledger.S2N Ledger.N2S Ledger.aged 3 (VStr "") (VStr Ledger.PSF)
    = Raised (JsError "an address must be specified!") /\
  agMerit Ledger.S2N Ledger.N2S Ledger.aged 3 (VStr "addr") (VStr "0000")
    = Value 0%float.
Proof.
  split.
  - apply (proj1 (agMerit_empty Ledger.S2N Ledger.N2S Ledger.aged 3 (VStr "")
                    (VStr Ledger.PSF))).
    reflexivity.
  - apply (proj2 (agMerit_empty Ledger.S2N Ledger.N2S Ledger.aged 3
                    (VStr "addr") (VStr "0000"))).
    + reflexivity.
    + evaluated.
    + intros _. exists 665800%float. reflexivity.
Defined.

(** The aggregate merit of the coins and of the tokens of the ledger,
    ageing off. *)
Lemma agMerit_plain_sum_witness :
  agMerit Ledger.S2N Ledger.N2S Ledger.plain 0 (VStr "addr") VUndef
    = Value (sum_units Ledger.S2N VUndef Ledger.coins) /\
  agMerit Ledger.S2N Ledger.N2S Ledger.plain 0 (VStr "addr") (VStr Ledger.PSF)
    = Value (sum_units Ledger.S2N (VStr Ledger.PSF) [Ledger.u1; Ledger.u3]) /\
  sum_units Ledger.S2N (VStr Ledger.PSF) [Ledger.u1; Ledger.u3] = 6200%float.
Proof.
  split; [| split].
  - apply (agMerit_plain_sum Ledger.S2N Ledger.N2S Ledger.plain 0 (VStr "addr")
             VUndef Ledger.coins); first [reflexivity | evaluated].
  - apply (agMerit_plain_sum Ledger.S2N Ledger.N2S Ledger.plain 0 (VStr "addr")
             (VStr Ledger.PSF) [Ledger.u1; Ledger.u3]);
      first [reflexivity | evaluated].
  - evaluated.
Defined.

(** The [tokenId] of every token UTXO of the ledger is a string. *)
Lemma ledger_tokenIds : Forall tokenId_is_string Ledger.tokens.
Proof. repeat constructor; intros _; eexists; reflexivity. Qed.

(** The selection on the ledger: by a token id, by a part of a token id,
    and of the coins. *)
Lemma getTokenUtxos_selects_witness :
  getTokenUtxos Ledger.N2S Ledger.plain (VStr "addr") (VStr Ledger.PSF)
    = Ret (List.filter (has_token Ledger.PSF) Ledger.tokens) /\
  List.filter (has_token Ledger.PSF) Ledger.tokens = [Ledger.u1; Ledger.u3] /\
  getTokenUtxos Ledger.N2S Ledger.plain (VStr "addr") (VStr "97c5")
    = Ret (List.filter (has_token "97c5") Ledger.tokens) /\
  List.filter (has_token "97c5") Ledger.tokens = [Ledger.u1; Ledger.u3] /\
  getTokenUtxos Ledger.N2S Ledger.plain (VStr "addr") VUndef
    = Ret (List.filter native_match Ledger.coins) /\
  List.filter native_match Ledger.coins = Ledger.coins.
Proof.
  pose proof (getTokenUtxos_selects Ledger.N2S Ledger.plain (VStr "addr") "addr"
                {| bchUtxos := Ledger.coins; slpTokens := Ledger.tokens |} false
                eq_refl eq_refl eq_refl) as Hsel.
  split; [| split; [evaluated | split; [| split; [evaluated | split; [| evaluated]]]]].
  - exact (proj1 (proj1 Hsel Ledger.PSF ltac:(discriminate) ledger_tokenIds)).
  - exact (proj1 (proj1 Hsel "97c5" ltac:(discriminate) ledger_tokenIds)).
  - exact (proj1 (proj2 Hsel VUndef eq_refl)).
Defined.

(** The walk from [t3] finds the records of [t2] and [t1]. *)
Lemma ledger_resolves :
  resolves Ledger.aged "addr" (VStr "t3") [Ledger.parent_t2; Ledger.parent_t1]
    (VStr "t1").
Proof.
  apply resolves_step; [reflexivity | evaluated |].
  apply resolves_step; [reflexivity | evaluated |].
  apply resolves_nil.
Qed.

(** The walk from [t3] finds the records of [t2] and [t1]; [t1] has no
    parent at the address, and the walk returns the record of [t1], the
    last one found.  The walk from [t1] itself finds none and returns
    [false]. *)
Lemma empty_result_ends_walk_witness :
  (Get (JPrim (VBool false)) "tx_hash" = Ret VUndef /\
   (forall t' v, findTokenParent Ledger.aged t' "addr" = Ret v ->
      exists next, Get v "tx_hash" = Ret next) /\
   getParentAge_loop Ledger.aged
     (S (length [Ledger.parent_t2; Ledger.parent_t1]) + 0) (VStr "t3") "addr"
     (JPrim (VBool false))
     = Value (match last [Ledger.parent_t2; Ledger.parent_t1] with
              | Some p => JObj p
              | None => JPrim (VBool false)
              end) /\
   getParentAge Ledger.aged
     (S (length [Ledger.parent_t2; Ledger.parent_t1]) + 0) (VStr "t3") "addr"
     = Value (deepest [Ledger.parent_t2; Ledger.parent_t1])) /\
  deepest [Ledger.parent_t2; Ledger.parent_t1] = JObj Ledger.parent_t1 /\
  getParentAge Ledger.aged 3 (VStr "t3") "addr" = Value (JObj Ledger.parent_t1) /\
  getParentAge Ledger.aged 1 (VStr "t1") "addr" = Value (JPrim (VBool false)).
Proof.
  split; [| split; [reflexivity | split; [evaluated|]]].
  - apply (empty_result_ends_walk Ledger.aged "addr" (VStr "t3")
             [Ledger.parent_t2; Ledger.parent_t1] (VStr "t1") 0
             (JPrim (VBool false)) ledger_resolves eq_refl ltac:(evaluated)).
  - apply (empty_result_ends_walk Ledger.aged "addr" (VStr "t1") [] (VStr "t1")
             0 (JPrim (VBool false))
             (resolves_nil Ledger.aged "addr" (VStr "t1")) eq_refl
             ltac:(evaluated)).
Defined.

(** On the ledger every resolved parent lies below its child. *)
Lemma ledger_parents_below t p :
  truthy t = true ->
  findTokenParent Ledger.aged t "addr" = Ret (JObj p) ->
  Ledger.level (get p "tx_hash") < Ledger.level t.
Proof.
  intros _ H. destruct t as [| | | |s]; try discriminate H.
  unfold findTokenParent in H. cbn [wallet getTxData Ledger.aged Ledger.merit_of
    Ledger.wallet_of Ledger.find_tx Ledger.transactions] in H.
  repeat match type of H with
         | context [String.eqb s ?k] =>
             destruct (String.eqb_spec s k) as [-> | _];
               [vm_compute in H; first [discriminate H | injection H as <-];
                vm_compute; lia |]
         end.
  discriminate H.
Qed.

(** The walk from [t3] on the ledger, an ancestry of three levels: it
    returns the record of [t1], the last of the chain. *)
Lemma getParentAge_terminates_witness :
  Ledger.level (VStr "t3") < 3 /\
  getParentAge Ledger.aged 3 (VStr "t3") "addr" = Value (JObj Ledger.parent_t1) /\
  getParentAge Ledger.aged 3 (VStr "t3") "addr" <> OutOfFuel /\
  (forall fuel, 3 <= fuel ->
     getParentAge Ledger.aged fuel (VStr "t3") "addr"
       = getParentAge Ledger.aged 3 (VStr "t3") "addr") /\
  (forall v, getParentAge Ledger.aged 3 (VStr "t3") "addr" = Value v ->
     exists chain, ancestry Ledger.aged "addr" (VStr "t3") chain /\
       length chain < 3 /\ v = deepest chain).
Proof.
  split; [vm_compute; lia|]. split; [evaluated|].
  apply (getParentAge_terminates Ledger.aged "addr" Ledger.level 3 (VStr "t3")
           ledger_parents_below).
  vm_compute. lia.
Defined.

(** The wallet answers a record for every entry of the history. *)
Lemma ledger_fetches ev :
  ev ∈ evaluations Ledger.inputs_of_c Ledger.history ->
  is_Some (tx_of Ledger.aged (get ev.2 "tx_hash")).
Proof.
  intros Hin. apply list_elem_of_In in Hin.
  assert (Hall : forallb
            (fun ev => match tx_of Ledger.aged (get ev.2 "tx_hash") with
                       | Some _ => true
                       | None => false
                       end)
            (evaluations Ledger.inputs_of_c Ledger.history) = true)
    by evaluated.
  rewrite forallb_forall in Hall. specialize (Hall ev Hin).
  destruct (tx_of Ledger.aged (get ev.2 "tx_hash")); [eauto | discriminate].
Qed.

(** The transaction [c] has three inputs; the history holds one entry for
    the first, two for the second, one for the third.  The first three
    pairs are accepted; the parent returned is the second entry of the
    second input, of height 60: neither the first accepted (height 100) nor
    the one of the least height (50). *)
Lemma findTokenParent_last_valid_witness :
  map (fun ev => get ev.2 "height")
    (List.filter (accepted Ledger.aged (VStr Ledger.PSF))
       (evaluations Ledger.inputs_of_c Ledger.history))
  = [VNum 100; VNum 50; VNum 60] /\
  last_accepted Ledger.aged (VStr Ledger.PSF)
    (evaluations Ledger.inputs_of_c Ledger.history) = JObj Ledger.parent_pb /\
  findTokenParent Ledger.aged (VStr "c") "addr" =
    Ret (last_accepted Ledger.aged (VStr Ledger.PSF)
           (evaluations Ledger.inputs_of_c Ledger.history)).
Proof.
  split; [evaluated|]. split; [evaluated|].
  apply (findTokenParent_last_valid Ledger.aged (VStr "c") "addr"
           (Ledger.token_tx Ledger.PSF true
              [("pa", 0%float); ("pb", 1%float); ("pc", 2%float)])
           [] Ledger.history eq_refl eq_refl ledger_fetches).
Defined.

(* ===================================================================== *)
(** ** Further properties: numbers *)
(* ===================================================================== *)

(** NaN is what [Prim2SF] maps to [S754_nan]. *)
Lemma is_nan_spec x : is_nan x = true <-> Prim2SF x = S754_nan.
Proof.
  unfold is_nan. rewrite FloatAxioms.eqb_spec, negb_true_iff.
  destruct (Prim2SF x) as [s| s| |s m e]; unfold SFeqb, SFcompare.
  - split; discriminate.
  - destruct s; split; discriminate.
  - split; reflexivity.
  - rewrite Z.compare_refl, Pos.compare_cont_refl.
    destruct s; split; discriminate.
Qed.

(** An addition with a NaN operand gives NaN. *)
Lemma add_nan x y : is_nan x || is_nan y = true -> is_nan (x + y) = true.
Proof.
  rewrite orb_true_iff, !is_nan_spec, FloatAxioms.add_spec. unfold SF64add.
  intros [-> | ->]; [reflexivity|]. destruct (Prim2SF x); reflexivity.
Qed.

(** A sum that meets a NaN term, or starts from NaN, is NaN. *)
Lemma fold_add_nan {A} (f : A -> float) (l : list A) : forall acc,
  is_nan acc = true \/ Exists (fun a => is_nan (f a) = true) l ->
  is_nan (fold_left (fun s a => (s + f a)%float) l acc) = true.
Proof.
  induction l as [|a l IH]; intros acc [Hacc | Hex]; simpl.
  - exact Hacc.
  - inversion Hex.
  - apply IH. left. apply add_nan. rewrite Hacc. reflexivity.
  - apply IH. inversion Hex as [? ? Ha | ? ? Hl]; subst.
    + left. apply add_nan. rewrite Ha. apply orb_true_r.
    + right. exact Hl.
Qed.

(** A finite number times zero is a zero. *)
Lemma mul_zero_finite x :
  is_finite x = true -> PrimFloat.eqb (x * 0) 0 = true.
Proof.
  unfold is_finite. rewrite FloatAxioms.eqb_spec, FloatAxioms.mul_spec.
  change (Prim2SF 0) with (S754_zero false). unfold SF64mul.
  destruct (Prim2SF x) as [s| s| |s m e]; try discriminate; reflexivity.
Qed.

(* ===================================================================== *)
(** ** Further properties: the instance, [calcMerit] and [agMerit] *)
(* ===================================================================== *)

Section MoreCalcMerit.

Variable S2N : string -> float.
Variable this : Merit.

Lemma env_flag_missing F : env this = None -> env_flag this F = Throw TypeError.
Proof. unfold env_flag. intros ->. reflexivity. Qed.

(** Writing [age] and [merit] leaves the other properties as they read. *)
Lemma get_written (elem : obj) a m k :
  k <> "age" -> k <> "merit" ->
  get (<["merit" := m]> (<["age" := a]> elem)) k = get elem k.
Proof.
  intros Hage Hmerit. unfold get.
  rewrite lookup_insert_ne by congruence.
  rewrite lookup_insert_ne by congruence. reflexivity.
Qed.

(** Writing the same [age] and [merit] a second time changes nothing. *)
Lemma written_twice (elem : obj) a m :
  <["merit" := m]> (<["age" := a]> (<["merit" := m]> (<["age" := a]> elem)))
  = <["merit" := m]> (<["age" := a]> elem).
Proof.
  apply map_eq. intros k.
  destruct (decide (k = "merit")) as [-> | Hmerit];
    [rewrite !lookup_insert_eq; reflexivity|].
  rewrite !(lookup_insert_ne _ "merit") by congruence.
  destruct (decide (k = "age")) as [-> | Hage];
    [rewrite !lookup_insert_eq; reflexivity|].
  repeat (rewrite lookup_insert_ne by congruence). reflexivity.
Qed.

(** The age of a record does not depend on its [age] and [merit]. *)
Lemma calc_age_written fuel cur bchAddr (elem : obj) a m :
  calc_age S2N this fuel cur bchAddr (<["merit" := m]> (<["age" := a]> elem))
  = calc_age S2N this fuel cur bchAddr elem.
Proof.
  unfold calc_age. rewrite !get_written by discriminate. reflexivity.
Qed.

Lemma unit_merit_written tokenId (elem : obj) a m :
  unit_merit S2N tokenId (<["merit" := m]> (<["age" := a]> elem))
  = unit_merit S2N tokenId elem.
Proof.
  unfold unit_merit. rewrite !get_written by discriminate. reflexivity.
Qed.

(** [calc_elem] on a record it has written gives the record back. *)
Lemma calc_elem_again fuel cur bchAddr tokenId elem elem' :
  calc_elem S2N this fuel cur bchAddr tokenId elem = Value elem' ->
  calc_elem S2N this fuel cur bchAddr tokenId elem' = Value elem'.
Proof.
  intros H.
  destruct (calc_elem_inv _ _ _ _ _ _ _ _ H) as (aging & age & Hflag & Hage & ->).
  unfold calc_elem. rewrite Hflag. cbn [lift mbind outcome_bind].
  change (if truthy tokenId then ToNumber S2N (get ?e "tokenQty")
          else (ToNumber S2N (get ?e "value") / 100000000)%float)
    with (unit_merit S2N tokenId e).
  rewrite unit_merit_written.
  destruct aging.
  - rewrite calc_age_written, Hage. cbn [mbind outcome_bind].
    rewrite written_twice. reflexivity.
  - subst age. cbn [mbind outcome_bind]. rewrite written_twice. reflexivity.
Qed.

(** The loop relates the records position by position. *)
Lemma calcMerit_loop_Forall2 fuel cur bchAddr tokenId l : forall out,
  calcMerit_loop S2N this fuel cur bchAddr tokenId l = Value out ->
  Forall2 (fun elem elem' =>
             calc_elem S2N this fuel cur bchAddr tokenId elem = Value elem')
    l out.
Proof.
  induction l as [|x l IH]; intros out H; simpl in H.
  - injection H as <-. constructor.
  - destruct (calc_elem S2N this fuel cur bchAddr tokenId x) as [x'| |] eqn:Hx;
      simpl in H; try discriminate.
    destruct (calcMerit_loop S2N this fuel cur bchAddr tokenId l)
      as [out'| |] eqn:Hl; simpl in H; try discriminate.
    injection H as <-. constructor; [exact Hx | apply IH; reflexivity].
Qed.

Lemma calcMerit_loop_of_Forall2 fuel cur bchAddr tokenId l out :
  Forall2 (fun elem elem' =>
             calc_elem S2N this fuel cur bchAddr tokenId elem = Value elem')
    l out ->
  calcMerit_loop S2N this fuel cur bchAddr tokenId l = Value out.
Proof.
  induction 1 as [|x x' l out Hx _ IH]; simpl; [reflexivity|].
  rewrite Hx. simpl. rewrite IH. reflexivity.
Qed.

(** The loop stops at the first record whose age cannot be computed. *)
Lemma calcMerit_loop_raises fuel cur bchAddr tokenId pre x post e :
  env_flag this MERIT_AGE = Ret true ->
  Forall (fun elem => exists age,
            calc_age S2N this fuel cur bchAddr elem = Value age) pre ->
  calc_age S2N this fuel cur bchAddr x = Raised e ->
  calcMerit_loop S2N this fuel cur bchAddr tokenId (pre ++ x :: post)%list
    = Raised e.
Proof.
  intros Hflag Hpre Hx. induction Hpre as [|y pre [age Hy] _ IH]; simpl.
  - unfold calc_elem. rewrite Hflag. simpl. rewrite Hx. reflexivity.
  - unfold calc_elem at 1. rewrite Hflag. simpl. rewrite Hy. simpl.
    rewrite IH. reflexivity.
Qed.

End MoreCalcMerit.

(** X1. The constructor accepts a config that leaves [env] out, and no
    entry point of the instance it builds returns a value: the selection,
    the merit calculation on an array and the aggregation all fail; when
    the address is given and the collaborators answer, [agMerit] fails with
    a TypeError. *)
Theorem without_env_nothing_returns S2N N2S config this :
  constructor config = Ret this ->
  config_env config = None ->
  (forall address tokenId sel,
     getTokenUtxos N2S this address tokenId <> Ret sel) /\
  (forall fuel l address tokenId out,
     calcMerit S2N this fuel (AArray l) address tokenId <> Value out) /\
  (forall fuel address tokenId v,
     agMerit S2N N2S this fuel address tokenId <> Value v) /\
  (forall fuel address tokenId a utxos,
     truthy address = true ->
     toCashAddress (bchjs this) address = Ret a ->
     getUtxos (wallet this) a = Ret utxos ->
     agMerit S2N N2S this fuel address tokenId = Raised TypeError).
Proof.
  intros Hnew Hnone.
  assert (Henv : env this = None).
  { unfold constructor in Hnew. destruct (config_wallet config) as [[w b]|];
      [| discriminate]. injection Hnew as <-. exact Hnone. }
  assert (Hsel : forall address tokenId sel,
             getTokenUtxos N2S this address tokenId <> Ret sel).
  { intros address tokenId sel H.
    destruct (getTokenUtxos_inv _ _ _ _ _ H) as (a & b & _ & Hb).
    rewrite (env_flag_missing this VERBOSE_LOG Henv) in Hb. discriminate. }
  split; [exact Hsel|]. split; [| split].
  - intros fuel l address tokenId out H.
    destruct (calcMerit_inv _ _ _ _ _ _ _ H) as (a & aging & cur & _ & Hflag & _).
    rewrite (env_flag_missing this MERIT_AGE Henv) in Hflag. discriminate.
  - intros fuel address tokenId v H. unfold agMerit in H.
    destruct (truthy address); [| discriminate]. simpl in H.
    destruct (getTokenUtxos N2S this address tokenId) as [sel|] eqn:Hs;
      [exact (Hsel _ _ _ Hs) | discriminate].
  - intros fuel address tokenId a utxos Haddr Ha Hu.
    unfold agMerit, getTokenUtxos. rewrite Haddr, Ha. simpl. rewrite Hu. simpl.
    rewrite (env_flag_missing this VERBOSE_LOG Henv). reflexivity.
Qed.

(** X2. With ageing off, every record of the result of [calcMerit] has the
    age zero and, as merit, its unit merit: the token quantity when a token
    is selected, the value divided by 1e8 otherwise.  Neither the wallet nor
    the fuel plays a part. *)
Theorem calcMerit_without_ageing S2N this fuel l address bchAddr tokenId :
  toCashAddress (bchjs this) address = Ret bchAddr ->
  env_flag this MERIT_AGE = Ret false ->
  exists out,
    calcMerit S2N this fuel (AArray l) address tokenId = Value out /\
    forall i elem, l !! i = Some elem ->
      exists elem', out !! i = Some elem' /\
        get elem' "age" = VNum 0 /\
        get elem' "merit" =
          VNum (if truthy tokenId then ToNumber S2N (get elem "tokenQty")
                else (ToNumber S2N (get elem "value") / 100000000)%float).
Proof.
  intros Haddr Hoff. eexists. split.
  - apply (calcMerit_plain S2N this fuel l address bchAddr tokenId Haddr Hoff).
  - intros i elem Hi. eexists. split.
    + rewrite list_lookup_fmap, Hi. reflexivity.
    + unfold get. rewrite lookup_insert_ne by discriminate.
      rewrite !lookup_insert_eq. split; reflexivity.
Qed.

(** X3. [calcMerit] is idempotent: run again on what it returned, with the
    same arguments, it returns the same sequence. *)
Theorem calcMerit_idempotent S2N this fuel l address tokenId out :
  calcMerit S2N this fuel (AArray l) address tokenId = Value out ->
  calcMerit S2N this fuel (AArray out) address tokenId = Value out.
Proof.
  intros H.
  destruct (calcMerit_inv _ _ _ _ _ _ _ H)
    as (bchAddr & aging & cur & Haddr & Hflag & Hcur & Hloop).
  assert (Hagain : calcMerit_loop S2N this fuel cur bchAddr tokenId out = Value out).
  { apply calcMerit_loop_of_Forall2.
    apply calcMerit_loop_Forall2 in Hloop. clear -Hloop.
    induction Hloop as [|x x' l out Hx _ IH]; constructor; [| exact IH].
    apply (calc_elem_again S2N this _ _ _ _ _ _ Hx). }
  unfold calcMerit. rewrite Haddr. simpl. rewrite Hflag. simpl.
  destruct aging; [rewrite Hcur | subst cur]; simpl; exact Hagain.
Qed.

(** X4. With ageing on, an unconfirmed UTXO whose unit merit is a finite
    number gets a merit that equals zero. *)
Theorem unconfirmed_merit_zero S2N this fuel l address tokenId out :
  env_flag this MERIT_AGE = Ret true ->
  calcMerit S2N this fuel (AArray l) address tokenId = Value out ->
  forall i elem, l !! i = Some elem ->
    unconfirmed elem = true ->
    is_finite (unit_merit S2N tokenId elem) = true ->
    exists elem', out !! i = Some elem' /\
      strict_eq (get elem' "merit") (VNum 0) = true.
Proof.
  intros Hon H i elem Hi Hzero Hfinite.
  destruct (calcMerit_inv _ _ _ _ _ _ _ H)
    as (bchAddr & aging & cur & _ & _ & _ & Hloop).
  destruct (calcMerit_loop_lookup _ _ _ _ _ _ _ _ Hloop) as [_ Hat].
  destruct (Hat i elem Hi) as (elem' & Hout & Helem).
  destruct (calc_elem_inv _ _ _ _ _ _ _ _ Helem) as (ag & age & Hflag & Hage & ->).
  rewrite Hon in Hflag. injection Hflag as <-.
  destruct (calc_age_inv _ _ _ _ _ _ _ Hage) as (anc & a & _ & _ & ->).
  eexists. split; [exact Hout|].
  unfold get. rewrite lookup_insert_eq, Hzero. simpl.
  apply mul_zero_finite. exact Hfinite.
Qed.

(** The quantity summed by [getTokenQuantity] does not read [age] or
    [merit]. *)
Lemma token_quantity_written S2N (l out : list obj) :
  Forall2 (fun elem elem' => exists a m,
             elem' = <["merit" := m]> (<["age" := a]> elem)) l out ->
  forall acc,
    fold_left (fun qty elem => (qty + ToNumber S2N (get elem "tokenQty"))%float)
      out acc
    = fold_left (fun qty elem => (qty + ToNumber S2N (get elem "tokenQty"))%float)
        l acc.
Proof.
  induction 1 as [|x x' l out (a & m & ->) _ IH]; intros acc; simpl;
    [reflexivity|].
  rewrite get_written by discriminate. apply IH.
Qed.

(** X5. With ageing off and a token selected, the aggregate merit of an
    address is the token quantity of its selection: [agMerit] returns what
    [getTokenQuantity] returns on the result of [getTokenUtxos]. *)
Theorem agMerit_is_token_quantity S2N N2S this fuel address tokenId sel :
  truthy address = true ->
  truthy tokenId = true ->
  env_flag this MERIT_AGE = Ret false ->
  getTokenUtxos N2S this address tokenId = Ret sel ->
  agMerit S2N N2S this fuel address tokenId
    = lift (getTokenQuantity S2N (AArray sel)).
Proof.
  intros Haddr Htok Hoff Hsel.
  rewrite (agMerit_selected S2N N2S this fuel address tokenId sel Haddr Hsel).
  destruct (getTokenUtxos_inv _ _ _ _ _ Hsel) as (a & b & Ha & _).
  rewrite (calcMerit_plain S2N this fuel sel address a tokenId Ha Hoff).
  cbn [mbind outcome_bind getTokenQuantity lift].
  rewrite sum_merit_plain. unfold sum_units, unit_merit. rewrite Htok.
  reflexivity.
Qed.

(** X6. [getTokenQuantity] gives the same quantity on the result of
    [calcMerit] as on its input: the properties written by [calcMerit] do
    not disturb it. *)
Theorem getTokenQuantity_after_calcMerit S2N this fuel l address tokenId out :
  calcMerit S2N this fuel (AArray l) address tokenId = Value out ->
  getTokenQuantity S2N (AArray out) = getTokenQuantity S2N (AArray l).
Proof.
  intros H.
  destruct (calcMerit_inv _ _ _ _ _ _ _ H)
    as (bchAddr & aging & cur & _ & _ & _ & Hloop).
  apply calcMerit_loop_Forall2 in Hloop.
  unfold getTokenQuantity. f_equal. apply token_quantity_written.
  clear -Hloop. induction Hloop as [|x x' l out Hx _ IH]; constructor;
    [| exact IH].
  destruct (calc_elem_inv _ _ _ _ _ _ _ _ Hx) as (ag & age & _ & _ & ->).
  eauto.
Qed.

(** X7. [getTokenQuantity] fails with a TypeError on a value that is not an
    array, and returns NaN as soon as one record of the array has a
    [tokenQty] that is not a number, a record without [tokenQty] among
    them. *)
Theorem getTokenQuantity_not_a_number S2N :
  (forall v, getTokenQuantity S2N (AOther v) = Throw TypeError) /\
  (forall l,
     Exists (fun elem => is_nan (ToNumber S2N (get elem "tokenQty")) = true) l ->
     exists qty, getTokenQuantity S2N (AArray l) = Ret qty /\ is_nan qty = true) /\
  (forall elem : obj, elem !! "tokenQty" = None ->
     is_nan (ToNumber S2N (get elem "tokenQty")) = true).
Proof.
  split; [reflexivity|]. split.
  - intros l Hex. eexists. split; [reflexivity|].
    apply (fold_add_nan (fun elem => ToNumber S2N (get elem "tokenQty"))).
    right. exact Hex.
  - intros elem Hnone. unfold get. rewrite Hnone. reflexivity.
Qed.

(** X8. With ageing off, one selected UTXO whose unit merit is not a number
    makes the aggregate merit NaN, whatever the other UTXOs hold. *)
Theorem agMerit_not_a_number S2N N2S this fuel address tokenId sel :
  truthy address = true ->
  env_flag this MERIT_AGE = Ret false ->
  getTokenUtxos N2S this address tokenId = Ret sel ->
  Exists (fun elem => is_nan (unit_merit S2N tokenId elem) = true) sel ->
  exists m, agMerit S2N N2S this fuel address tokenId = Value m /\
            is_nan m = true.
Proof.
  intros Haddr Hoff Hsel Hex.
  rewrite (agMerit_selected S2N N2S this fuel address tokenId sel Haddr Hsel).
  destruct (getTokenUtxos_inv _ _ _ _ _ Hsel) as (a & b & Ha & _).
  rewrite (calcMerit_plain S2N this fuel sel address a tokenId Ha Hoff).
  cbn [mbind outcome_bind]. rewrite sum_merit_plain.
  eexists. split; [reflexivity|].
  apply (fold_add_nan (unit_merit S2N tokenId)). right. exact Hex.
Qed.

(** X9. With ageing on, [agMerit] fetches the height of the chain before
    it looks at any UTXO: when that fetch fails, [agMerit] raises its error,
    also for an address whose selection is empty. *)
Theorem agMerit_needs_the_height S2N N2S this fuel address tokenId sel e :
  truthy address = true ->
  env_flag this MERIT_AGE = Ret true ->
  getTokenUtxos N2S this address tokenId = Ret sel ->
  getBlockCount (bchjs this) = Throw e ->
  agMerit S2N N2S this fuel address tokenId = Raised e.
Proof.
  intros Haddr Hon Hsel Hheight.
  rewrite (agMerit_selected S2N N2S this fuel address tokenId sel Haddr Hsel).
  destruct (getTokenUtxos_inv _ _ _ _ _ Hsel) as (a & b & Ha & _).
  unfold calcMerit. rewrite Ha. simpl. rewrite Hon. simpl.
  rewrite Hheight. reflexivity.
Qed.

(** X10. The aggregation fails fast: with ageing on, when the ancestry of
    one selected UTXO raises an error and the ages of the UTXOs before it
    can be computed, [agMerit] raises that error; no UTXO is skipped and no
    partial sum is returned. *)
Theorem agMerit_fails_fast S2N N2S this fuel address tokenId a cur pre x post e :
  truthy address = true ->
  env_flag this MERIT_AGE = Ret true ->
  toCashAddress (bchjs this) address = Ret a ->
  getBlockCount (bchjs this) = Ret cur ->
  getTokenUtxos N2S this address tokenId = Ret (pre ++ x :: post)%list ->
  Forall (fun elem => exists age,
            calc_age S2N this fuel cur a elem = Value age) pre ->
  getParentAge this fuel (get x "tx_hash") a = Raised e ->
  agMerit S2N N2S this fuel address tokenId = Raised e.
Proof.
  intros Haddr Hon Ha Hcur Hsel Hpre Hx.
  rewrite (agMerit_selected S2N N2S this fuel address tokenId _ Haddr Hsel).
  unfold calcMerit. rewrite Ha. simpl. rewrite Hon. simpl. rewrite Hcur. simpl.
  rewrite (calcMerit_loop_raises S2N this fuel cur a tokenId pre x post e Hon Hpre).
  - reflexivity.
  - unfold calc_age. rewrite Hx. reflexivity.
Qed.

(** X11. [agMerit] passes the failures of its collaborators on unchanged:
    the error of the address normaliser, and the error of the fetch of the
    UTXOs. *)
Theorem agMerit_passes_failures_on S2N N2S this fuel address tokenId e :
  truthy address = true ->
  (toCashAddress (bchjs this) address = Throw e ->
   agMerit S2N N2S this fuel address tokenId = Raised e) /\
  (forall a, toCashAddress (bchjs this) address = Ret a ->
     getUtxos (wallet this) a = Throw e ->
     agMerit S2N N2S this fuel address tokenId = Raised e).
Proof.
  intros Haddr. unfold agMerit, getTokenUtxos. rewrite Haddr. split.
  - intros ->. reflexivity.
  - intros a -> Hu. simpl. rewrite Hu. reflexivity.
Qed.

(* ===================================================================== *)
(** ** Further properties: [getTokenUtxos] *)
(* ===================================================================== *)

Lemma string_append_assoc (a b c : string) : (a +:+ b) +:+ c = a +:+ (b +:+ c).
Proof.
  induction a as [|x a IH]; [reflexivity|].
  change (String x ((a +:+ b) +:+ c) = String x (a +:+ (b +:+ c))).
  rewrite IH. reflexivity.
Qed.

(** Containment is transitive. *)
Lemma includes_trans s t2 t1 :
  includes s t2 = true -> includes t2 t1 = true -> includes s t1 = true.
Proof.
  rewrite !includes_substring.
  intros (pre2 & post2 & ->) (pre1 & post1 & ->).
  exists (pre2 +:+ pre1), (post1 +:+ post2).
  rewrite !string_append_assoc. reflexivity.
Qed.

(** A string holds itself. *)
Lemma includes_refl s : includes s s = true.
Proof.
  apply includes_substring. exists "", "".
  change (s = s +:+ ""). induction s as [|c s IH]; [reflexivity|].
  change (String c s = String c (s +:+ "")). rewrite <- IH. reflexivity.
Qed.

Lemma filter_sublist {A} (f : A -> bool) (l : list A) :
  List.filter f l `sublist_of` l.
Proof.
  induction l as [|x l IH]; simpl; [constructor|].
  destruct (f x); constructor; exact IH.
Qed.

Lemma filter_res_sublist {A} (f : A -> res bool) (l : list A) : forall sel,
  filter_res f l = Ret sel -> sel `sublist_of` l.
Proof.
  induction l as [|x l IH]; intros sel H; simpl in H.
  - injection H as <-. constructor.
  - destruct (f x) as [b|]; simpl in H; [| discriminate].
    destruct (filter_res f l) as [r|]; simpl in H; [| discriminate].
    injection H as <-. destruct b; constructor; apply IH; reflexivity.
Qed.

(** The callback of the token branch throws nothing but a TypeError, and
    throws it on a foreign token id. *)
Lemma token_match_throws N2S tokenId elem e :
  token_match N2S tokenId elem = Throw e -> e = TypeError.
Proof.
  unfold token_match. destruct (truthy (get elem "tokenId")); [| discriminate].
  destruct (get elem "tokenId"); intros H; try discriminate; congruence.
Qed.

Lemma token_match_foreign N2S tokenId elem :
  foreign_tokenId elem -> token_match N2S tokenId elem = Throw TypeError.
Proof.
  intros [Htruthy Hstr]. unfold token_match. rewrite Htruthy.
  destruct (get elem "tokenId") as [| | | |s]; try reflexivity.
  destruct (Hstr s eq_refl).
Qed.

Lemma filter_res_foreign N2S tokenId l :
  Exists foreign_tokenId l ->
  filter_res (token_match N2S tokenId) l = Throw TypeError.
Proof.
  induction l as [|x l IH]; intros Hex; [inversion Hex|]. simpl.
  destruct (token_match N2S tokenId x) as [b|e] eqn:Hx; simpl.
  - rewrite IH; [reflexivity|].
    inversion Hex as [? ? Hbad | ? ? Hl]; subst; [| exact Hl].
    rewrite (token_match_foreign N2S tokenId x Hbad) in Hx. discriminate.
  - rewrite (token_match_throws _ _ _ _ Hx). reflexivity.
Qed.

(** X12. Whatever the token id asked for and whatever the records hold, a
    selection that [getTokenUtxos] returns is a subsequence of what the
    wallet answered, of its token UTXOs when a token id is given and of its
    native UTXOs otherwise: nothing is added, repeated or reordered. *)
Theorem getTokenUtxos_subsequence N2S this address tokenId sel :
  getTokenUtxos N2S this address tokenId = Ret sel ->
  exists a utxos,
    toCashAddress (bchjs this) address = Ret a /\
    getUtxos (wallet this) a = Ret utxos /\
    sel `sublist_of`
      (if truthy tokenId then slpTokens utxos else bchUtxos utxos).
Proof.
  unfold getTokenUtxos. intros H.
  destruct (toCashAddress (bchjs this) address) as [a|] eqn:Ha; simpl in H;
    [| discriminate].
  destruct (getUtxos (wallet this) a) as [utxos|] eqn:Hu; simpl in H;
    [| discriminate].
  destruct (env_flag this VERBOSE_LOG) as [b|]; simpl in H; [| discriminate].
  exists a, utxos. split; [reflexivity|]. split; [exact Hu|].
  destruct (truthy tokenId).
  - apply (filter_res_sublist _ _ _ H).
  - injection H as <-. apply filter_sublist.
Qed.

(** X13. With a token id given, [getTokenUtxos] fails with a TypeError as
    soon as one token UTXO of the wallet has a [tokenId] that is truthy and
    is not a string (a number, [true]): such a value has no [includes]
    method. *)
Theorem getTokenUtxos_foreign_tokenId N2S this address tokenId a utxos flag :
  toCashAddress (bchjs this) address = Ret a ->
  getUtxos (wallet this) a = Ret utxos ->
  env_flag this VERBOSE_LOG = Ret flag ->
  truthy tokenId = true ->
  Exists foreign_tokenId (slpTokens utxos) ->
  getTokenUtxos N2S this address tokenId = Throw TypeError.
Proof.
  intros Ha Hu Hflag Htok Hex. unfold getTokenUtxos.
  rewrite Ha. simpl. rewrite Hu. simpl. rewrite Hflag. simpl. rewrite Htok.
  apply filter_res_foreign. exact Hex.
Qed.

(** X14. The token branch matches by containment, so a request selects
    every token UTXO whose [tokenId] is the requested id, and a request that
    is a part of another request selects at least what the other selects. *)
Theorem getTokenUtxos_narrowing N2S this address a utxos flag t1 t2 :
  toCashAddress (bchjs this) address = Ret a ->
  getUtxos (wallet this) a = Ret utxos ->
  env_flag this VERBOSE_LOG = Ret flag ->
  Forall tokenId_is_string (slpTokens utxos) ->
  t1 <> "" -> t2 <> "" ->
  includes t2 t1 = true ->
  exists sel1 sel2,
    getTokenUtxos N2S this address (VStr t1) = Ret sel1 /\
    getTokenUtxos N2S this address (VStr t2) = Ret sel2 /\
    (forall elem, elem ∈ sel2 -> elem ∈ sel1) /\
    (forall elem, elem ∈ slpTokens utxos ->
       get elem "tokenId" = VStr t1 -> elem ∈ sel1).
Proof.
  intros Ha Hu Hflag Hall Ht1 Ht2 Hpart.
  assert (Hsel : forall t, t <> "" ->
            getTokenUtxos N2S this address (VStr t)
              = Ret (List.filter (has_token t) (slpTokens utxos))).
  { intros t Ht. unfold getTokenUtxos. rewrite Ha. simpl. rewrite Hu. simpl.
    rewrite Hflag. simpl. destruct t as [|c t]; [congruence|]. simpl.
    apply (filter_res_token N2S (String c t)); assumption. }
  exists (List.filter (has_token t1) (slpTokens utxos)),
         (List.filter (has_token t2) (slpTokens utxos)).
  split; [apply Hsel; exact Ht1|]. split; [apply Hsel; exact Ht2|]. split.
  - intros elem. rewrite !list_elem_of_In, !filter_In. intros [Hin Hhas].
    split; [exact Hin|]. unfold has_token in *.
    destruct (get elem "tokenId"); try discriminate.
    apply (includes_trans _ t2); assumption.
  - intros elem Hin Hid. rewrite list_elem_of_In, filter_In.
    split; [apply list_elem_of_In; exact Hin|].
    unfold has_token. rewrite Hid. apply includes_refl.
Qed.

(* ===================================================================== *)
(** ** Further properties: [findTokenParent] and [getParentAge] *)
(* ===================================================================== *)

Section MoreParentMatcher.

Variable this : Merit.

(** Past its two fetches, [findTokenParent] is the evaluation on values. *)
Lemma findTokenParent_on_values txid addr child others txHistory :
  getTxData (wallet this) txid = Ret (child :: others) ->
  getTransactions (wallet this) addr = Ret txHistory ->
  findTokenParent this txid addr =
    (acc ← eval_fold this (tx_tokenId child)
             (evaluations (tx_vin child) txHistory) None;
     Ret (parent_value acc)).
Proof.
  intros Hchild Hhist. unfold findTokenParent.
  rewrite Hchild. simpl. rewrite Hhist. simpl.
  assert (Hinv : store_inv this (tx_tokenId child) txHistory (txHistory, None) None).
  { split; simpl; [| reflexivity].
    apply Forall2_same_length_lookup_2; [reflexivity|].
    intros i x y Hx Hy. left. congruence. }
  pose proof (parent_loop_eval this (tx_tokenId child) txHistory
                (tx_vin child) _ _ Hinv) as Hloop.
  destruct (parent_loop this (tx_tokenId child) (tx_vin child) (txHistory, None))
    as [[H pi]|e]; simpl.
  - destruct Hloop as (acc' & -> & _ & Hpi). simpl in Hpi |- *.
    destruct pi as [j|].
    + destruct Hpi as (o & d & ds & Ho & -> & _). rewrite Ho. reflexivity.
    + subst acc'. reflexivity.
  - rewrite Hloop. reflexivity.
Qed.

(** The evaluated pairs are the pairs of an input and a history entry with
    the transaction id of the input. *)
Lemma elem_of_evaluations c e parentUtxos txHistory :
  (c, e) ∈ evaluations parentUtxos txHistory <->
  c ∈ parentUtxos /\ e ∈ txHistory /\
  strict_eq (get e "tx_hash") (vin_txid c) = true.
Proof.
  unfold evaluations. rewrite !list_elem_of_In, in_flat_map. split.
  - intros (c' & Hc & Hin). apply in_map_iff in Hin as (e' & Heq & He).
    injection Heq as -> ->. apply filter_In in He as [He Hmatch]. auto.
  - intros (Hc & He & Hmatch). exists c. split; [exact Hc|].
    apply in_map. apply filter_In. auto.
Qed.

Lemma evaluations_none parentUtxos txHistory :
  (forall c e, c ∈ parentUtxos -> e ∈ txHistory ->
     strict_eq (get e "tx_hash") (vin_txid c) = false) ->
  evaluations parentUtxos txHistory = [].
Proof.
  intros Hnone.
  destruct (evaluations parentUtxos txHistory) as [|[c e] evs] eqn:Hevs;
    [reflexivity|].
  assert (Hin : (c, e) ∈ evaluations parentUtxos txHistory)
    by (rewrite Hevs; left).
  apply elem_of_evaluations in Hin as (Hc & He & Hmatch).
  rewrite (Hnone c e Hc He) in Hmatch. discriminate.
Qed.

(** A record held at the end of the evaluations was held at the start or
    is the parent record of a pair whose fetched record is a valid
    parent. *)
Lemma eval_fold_some childTokenId evs : forall acc o,
  eval_fold this childTokenId evs acc = Ret (Some o) ->
  acc = Some o \/
  exists ev d, ev ∈ evs /\ tx_of this (get ev.2 "tx_hash") = Some d /\
    valid_parent childTokenId d = true /\ o = parent_record ev.
Proof.
  induction evs as [|ev evs IH]; intros acc o H; simpl in H.
  - injection H as ->. left. reflexivity.
  - destruct (getTxData (wallet this) (get ev.2 "tx_hash")) as [[|d ds]|] eqn:Hds;
      simpl in H; try discriminate.
    destruct (IH _ _ H) as [Hacc | (ev' & d' & Hin & Htx & Hvalid & ->)].
    + destruct (valid_parent childTokenId d) eqn:Hvalid; [| left; exact Hacc].
      right. exists ev, d. split; [left|]. unfold tx_of. rewrite Hds.
      split; [reflexivity|]. split; [exact Hvalid | congruence].
    + right. exists ev', d'. split; [right; exact Hin | auto].
Qed.

(** The evaluations throw when the fetch of one pair gives no record. *)
Lemma eval_fold_fails childTokenId evs ev : forall acc,
  ev ∈ evs -> tx_of this (get ev.2 "tx_hash") = None ->
  exists e, eval_fold this childTokenId evs acc = Throw e.
Proof.
  intros acc Hin Hnone. revert acc.
  induction Hin as [ev evs | ev ev' evs Hin IH]; intros acc; simpl.
  - unfold tx_of in Hnone.
    destruct (getTxData (wallet this) (get ev.2 "tx_hash")) as [[|d ds]|];
      simpl; eauto; discriminate.
  - destruct (getTxData (wallet this) (get ev'.2 "tx_hash")) as [[|d ds]|];
      simpl; eauto.
Qed.

(** On a set of ids closed under resolution the walk does not finish. *)
Lemma getParentAge_loop_cycles addr (S : prim -> Prop) fuel :
  (forall t, S t -> truthy t = true /\
     exists p, findTokenParent this t addr = Ret (JObj p) /\
               S (get p "tx_hash")) ->
  forall txid oldest, S txid ->
    getParentAge_loop this fuel txid addr oldest = OutOfFuel.
Proof.
  intros Hclosed. induction fuel as [|fuel IH]; intros txid oldest Hin;
    destruct (Hclosed txid Hin) as (Ht & p & Hp & Hnext); simpl; rewrite Ht;
    [reflexivity|].
  rewrite Hp. simpl. apply IH. exact Hnext.
Qed.

End MoreParentMatcher.

(** X15. [findTokenParent] mutates the entries of the history in place and
    returns a reference to one of them; all the same it returns what an
    evaluation without mutation returns: over the pairs of an input of the
    child and a history entry with its transaction id, in their order, the
    last parent record whose fetched record is a valid parent, the first
    error met, or [false]. *)
Theorem findTokenParent_without_mutation this txid addr :
  findTokenParent this txid addr =
    (txData ← getTxData (wallet this) txid;
     child ← first_tx txData;
     txHistory ← getTransactions (wallet this) addr;
     acc ← eval_fold this (tx_tokenId child)
              (evaluations (tx_vin child) txHistory) None;
     Ret (parent_value acc)).
Proof.
  destruct (getTxData (wallet this) txid) as [[|child others]|e] eqn:Hchild.
  - unfold findTokenParent. rewrite Hchild. reflexivity.
  - destruct (getTransactions (wallet this) addr) as [txHistory|e] eqn:Hhist.
    + rewrite (findTokenParent_on_values this txid addr child others txHistory
                 Hchild Hhist). reflexivity.
    + unfold findTokenParent. rewrite Hchild. simpl. rewrite Hhist. reflexivity.
  - unfold findTokenParent. rewrite Hchild. reflexivity.
Qed.

(** X16. When no entry of the history of the address has the transaction
    id of an input of the child (the parent lies outside the history the
    wallet keeps, or at another address), [findTokenParent] returns [false],
    and does so without fetching any other transaction. *)
Theorem findTokenParent_outside_history this txid addr child others txHistory :
  getTxData (wallet this) txid = Ret (child :: others) ->
  getTransactions (wallet this) addr = Ret txHistory ->
  (forall c e, c ∈ tx_vin child -> e ∈ txHistory ->
     strict_eq (get e "tx_hash") (vin_txid c) = false) ->
  findTokenParent this txid addr = Ret (JPrim (VBool false)).
Proof.
  intros Hchild Hhist Hnone.
  rewrite (findTokenParent_on_values this txid addr child others txHistory
             Hchild Hhist).
  rewrite (evaluations_none _ _ Hnone). reflexivity.
Qed.

(** X17. A parent that [findTokenParent] returns is sound: it is an entry
    of the history of the address, with its [tx_hash] and [height], whose
    transaction id is the one of an input of the child; its [tx_pos] is the
    output index of that input; and the record fetched for it is flagged as
    a valid token transaction and carries the token id of the child. *)
Theorem findTokenParent_sound this txid addr p :
  findTokenParent this txid addr = Ret (JObj p) ->
  exists child others txHistory c e d,
    getTxData (wallet this) txid = Ret (child :: others) /\
    getTransactions (wallet this) addr = Ret txHistory /\
    c ∈ tx_vin child /\ e ∈ txHistory /\
    strict_eq (get e "tx_hash") (vin_txid c) = true /\
    p = <["tx_pos" := vin_vout c]> e /\
    get p "tx_hash" = get e "tx_hash" /\ get p "height" = get e "height" /\
    tx_of this (get p "tx_hash") = Some d /\
    truthy (tx_isValidSlp d) = true /\
    strict_eq (tx_tokenId child) (tx_tokenId d) = true.
Proof.
  intros H.
  destruct (getTxData (wallet this) txid) as [[|child others]|e0] eqn:Hchild;
    try (unfold findTokenParent in H; rewrite Hchild in H; discriminate H).
  destruct (getTransactions (wallet this) addr) as [txHistory|e0] eqn:Hhist;
    [| unfold findTokenParent in H; rewrite Hchild in H; simpl in H;
       rewrite Hhist in H; discriminate H].
  rewrite (findTokenParent_on_values this txid addr child others txHistory
             Hchild Hhist) in H.
  destruct (eval_fold this (tx_tokenId child)
              (evaluations (tx_vin child) txHistory) None) as [[o|]|] eqn:Hfold;
    simpl in H; try discriminate.
  injection H as ->.
  destruct (eval_fold_some this _ _ _ _ Hfold)
    as [Hacc | ([c e] & d & Hin & Htx & Hvalid & ->)]; [discriminate|].
  apply elem_of_evaluations in Hin as (Hc & He & Hmatch).
  apply andb_true_iff in Hvalid as [Hslp Htok].
  assert (Hhash : get (parent_record (c, e)) "tx_hash" = get e "tx_hash")
    by (unfold parent_record, get; rewrite lookup_insert_ne by discriminate;
        reflexivity).
  assert (Hheight : get (parent_record (c, e)) "height" = get e "height")
    by (unfold parent_record, get; rewrite lookup_insert_ne by discriminate;
        reflexivity).
  rewrite <- Hhash in Htx at 1.
  exists child, others, txHistory, c, e, d.
  split; [reflexivity|]. split; [reflexivity|]. split; [exact Hc|].
  split; [exact He|]. split; [exact Hmatch|]. split; [reflexivity|].
  split; [exact Hhash|]. split; [exact Hheight|]. split; [exact Htx|].
  split; [exact Hslp | exact Htok].
Qed.

(** X18. [findTokenParent] fails fast: it throws when the wallet gives no
    record for one history entry that has the transaction id of an input of
    the child, whatever the other entries and inputs are. *)
Theorem findTokenParent_fails_fast this txid addr child others txHistory c e :
  getTxData (wallet this) txid = Ret (child :: others) ->
  getTransactions (wallet this) addr = Ret txHistory ->
  c ∈ tx_vin child -> e ∈ txHistory ->
  strict_eq (get e "tx_hash") (vin_txid c) = true ->
  tx_of this (get e "tx_hash") = None ->
  exists err, findTokenParent this txid addr = Throw err.
Proof.
  intros Hchild Hhist Hc He Hmatch Hnone.
  rewrite (findTokenParent_on_values this txid addr child others txHistory
             Hchild Hhist).
  destruct (eval_fold_fails this (tx_tokenId child)
              (evaluations (tx_vin child) txHistory) (c, e) None)
    as [err Herr].
  - apply elem_of_evaluations. auto.
  - exact Hnone.
  - rewrite Herr. eauto.
Qed.

(** X19. The walk raises no error of its own: an error that [getParentAge]
    raises is one that [findTokenParent] threw for a transaction id of the
    walk, that is, for the id the walk from [txid] has reached through the
    parents it found, within the fuel. *)
Theorem getParentAge_raises_only_lookups this fuel txid addr e :
  getParentAge this fuel txid addr = Raised e ->
  exists chain t,
    resolves this addr txid chain t /\ length chain < fuel /\
    truthy t = true /\ findTokenParent this t addr = Throw e.
Proof. apply getParentAge_loop_raised. Qed.

(** X20. The walk has no bound and detects no cycle: on a set of
    transaction ids in which every id resolves to a parent whose id is in
    the set again, [getParentAge] does not finish, whatever the fuel. *)
Theorem getParentAge_does_not_finish_on_a_cycle this addr (S : prim -> Prop) txid :
  (forall t, S t -> truthy t = true /\
     exists p, findTokenParent this t addr = Ret (JObj p) /\
               S (get p "tx_hash")) ->
  S txid ->
  forall fuel, getParentAge this fuel txid addr = OutOfFuel.
Proof.
  intros Hclosed Hin fuel.
  apply (getParentAge_loop_cycles this addr S fuel Hclosed). exact Hin.
Qed.

(* ===================================================================== *)
(** ** The further properties on the worked ledgers *)
(* ===================================================================== *)

(** An instance built without [env]. *)
Lemma without_env_nothing_returns_witness :
  constructor Ledger.bare_config = Ret Ledger.bare /\
  agMerit Ledger.S2N Ledger.N2S Ledger.bare 3 (VStr "addr") (VStr Ledger.PSF)
    = Raised TypeError /\
  (forall address tokenId sel,
     getTokenUtxos Ledger.N2S Ledger.bare address tokenId <> Ret sel) /\
  (forall fuel l address tokenId out,
     calcMerit Ledger.S2N Ledger.bare fuel (AArray l) address tokenId <> Value out) /\
  (forall fuel address tokenId v,
     agMerit Ledger.S2N Ledger.N2S Ledger.bare fuel address tokenId <> Value v).
Proof.
  pose proof (without_env_nothing_returns Ledger.S2N Ledger.N2S
                Ledger.bare_config Ledger.bare eq_refl eq_refl)
    as (Hsel & Hcalc & Hag & Herr).
  split; [reflexivity|]. split; [| split; [exact Hsel | split; assumption]].
  apply (Herr 3 (VStr "addr") (VStr Ledger.PSF) "addr"
           {| bchUtxos := Ledger.coins; slpTokens := Ledger.tokens |});
    reflexivity.
Defined.

(** A token UTXO and a coin, ageing off. *)
Lemma calcMerit_without_ageing_witness :
  exists out,
    calcMerit Ledger.S2N Ledger.plain 0 (AArray [Ledger.u1; Ledger.dime])
      (VStr "addr") VUndef = Value out /\
    forall i elem, [Ledger.u1; Ledger.dime] !! i = Some elem ->
      exists elem', out !! i = Some elem' /\
        get elem' "age" = VNum 0 /\
        get elem' "merit" =
          VNum (if truthy VUndef then ToNumber Ledger.S2N (get elem "tokenQty")
                else (ToNumber Ledger.S2N (get elem "value") / 100000000)%float).
Proof.
  apply (calcMerit_without_ageing Ledger.S2N Ledger.plain 0
           [Ledger.u1; Ledger.dime] (VStr "addr") "addr" VUndef);
    reflexivity.
Defined.

(** [calcMerit] on its own result, ageing on. *)
Lemma calcMerit_idempotent_witness :
  calcMerit Ledger.S2N Ledger.aged 3 (AArray [Ledger.aged_u1; Ledger.aged_u3])
    (VStr "addr") (VStr Ledger.PSF) = Value [Ledger.aged_u1; Ledger.aged_u3].
Proof.
  apply (calcMerit_idempotent Ledger.S2N Ledger.aged 3 [Ledger.u1; Ledger.u3]
           (VStr "addr") (VStr Ledger.PSF)).
  evaluated.
Defined.

(** The unconfirmed UTXO [u3] holds 1200 tokens and has the merit zero. *)
Lemma unconfirmed_merit_zero_witness :
  exists elem', [Ledger.aged_u3] !! 0 = Some elem' /\
    strict_eq (get elem' "merit") (VNum 0) = true.
Proof.
  apply (unconfirmed_merit_zero Ledger.S2N Ledger.aged 3 [Ledger.u3]
           (VStr "addr") (VStr Ledger.PSF) [Ledger.aged_u3] eq_refl
           ltac:(evaluated) 0 Ledger.u3 eq_refl ltac:(evaluated)
           ltac:(evaluated)).
Defined.

(** The aggregate merit of the tokens of the ledger is their quantity. *)
Lemma agMerit_is_token_quantity_witness :
  agMerit Ledger.S2N Ledger.N2S Ledger.plain 0 (VStr "addr") (VStr Ledger.PSF)
    = lift (getTokenQuantity Ledger.S2N (AArray [Ledger.u1; Ledger.u3])) /\
  getTokenQuantity Ledger.S2N (AArray [Ledger.u1; Ledger.u3]) = Ret 6200%float.
Proof.
  split; [| evaluated].
  apply (agMerit_is_token_quantity Ledger.S2N Ledger.N2S Ledger.plain 0
           (VStr "addr") (VStr Ledger.PSF) [Ledger.u1; Ledger.u3]);
    first [reflexivity | evaluated].
Defined.

(** The quantity of the tokens before and after [calcMerit]. *)
Lemma getTokenQuantity_after_calcMerit_witness :
  getTokenQuantity Ledger.S2N (AArray [Ledger.aged_u1; Ledger.aged_u3])
    = getTokenQuantity Ledger.S2N (AArray [Ledger.u1; Ledger.u3]).
Proof.
  apply (getTokenQuantity_after_calcMerit Ledger.S2N Ledger.aged 3
           [Ledger.u1; Ledger.u3] (VStr "addr") (VStr Ledger.PSF)).
  evaluated.
Defined.

(** The quantity of a string, and of tokens one of which has no
    quantity. *)
Lemma getTokenQuantity_not_a_number_witness :
  getTokenQuantity Ledger.S2N (AOther (JPrim (VStr "utxos"))) = Throw TypeError /\
  exists qty,
    getTokenQuantity Ledger.S2N (AArray [Ledger.u1; Ledger.unquantified_token])
      = Ret qty /\
    is_nan qty = true.
Proof.
  pose proof (getTokenQuantity_not_a_number Ledger.S2N)
    as (Hother & Harray & Hmissing).
  split; [apply Hother|].
  apply Harray. apply Exists_cons_tl, Exists_cons_hd.
  apply Hmissing. evaluated.
Defined.

(** The aggregate merit of tokens one of which has no quantity. *)
Lemma agMerit_not_a_number_witness :
  exists m,
    agMerit Ledger.S2N Ledger.N2S Ledger.unquantified 0 (VStr "addr")
      (VStr Ledger.PSF) = Value m /\
    is_nan m = true.
Proof.
  apply (agMerit_not_a_number Ledger.S2N Ledger.N2S Ledger.unquantified 0
           (VStr "addr") (VStr Ledger.PSF)
           [Ledger.u1; Ledger.unquantified_token; Ledger.u3]);
    [reflexivity | reflexivity | evaluated |].
  apply Exists_cons_tl, Exists_cons_hd. evaluated.
Defined.

(** An empty selection on a node that cannot tell the height. *)
Lemma agMerit_needs_the_height_witness :
  getTokenUtxos Ledger.N2S Ledger.headless (VStr "addr") (VStr "0000") = Ret [] /\
  agMerit Ledger.S2N Ledger.N2S Ledger.headless 3 (VStr "addr") (VStr "0000")
    = Raised (External "no block count").
Proof.
  split; [evaluated|].
  apply (agMerit_needs_the_height Ledger.S2N Ledger.N2S Ledger.headless 3
           (VStr "addr") (VStr "0000") []);
    first [reflexivity | evaluated].
Defined.

(** The second token UTXO spends a transaction the wallet has no record
    of. *)
Lemma agMerit_fails_fast_witness :
  agMerit Ledger.S2N Ledger.N2S Ledger.gappy 3 (VStr "addr") (VStr Ledger.PSF)
    = Raised (External "transaction not found").
Proof.
  apply (agMerit_fails_fast Ledger.S2N Ledger.N2S Ledger.gappy 3 (VStr "addr")
           (VStr Ledger.PSF) "addr" 665800%float
           [Ledger.u1] (Ledger.token_utxo "k" 700 10) []);
    [reflexivity | reflexivity | reflexivity | reflexivity | evaluated | |
     evaluated].
  repeat constructor. exists (205 / 100)%float. evaluated.
Defined.

(** An address the normaliser refuses, and a wallet whose UTXO service is
    down. *)
Lemma agMerit_passes_failures_on_witness :
  agMerit Ledger.S2N Ledger.N2S Ledger.aged 3 (VNum 5) (VStr Ledger.PSF)
    = Raised (External "unsupported address format") /\
  agMerit Ledger.S2N Ledger.N2S Ledger.offline 3 (VStr "addr") (VStr Ledger.PSF)
    = Raised (External "no utxos").
Proof.
  split.
  - apply (proj1 (agMerit_passes_failures_on Ledger.S2N Ledger.N2S Ledger.aged 3
                    (VNum 5) (VStr Ledger.PSF)
                    (External "unsupported address format") ltac:(evaluated))).
    reflexivity.
  - apply (proj2 (agMerit_passes_failures_on Ledger.S2N Ledger.N2S
                    Ledger.offline 3 (VStr "addr") (VStr Ledger.PSF)
                    (External "no utxos") eq_refl) "addr");
      reflexivity.
Defined.

(** The selection of the tokens of the ledger. *)
Lemma getTokenUtxos_subsequence_witness :
  exists a utxos,
    toCashAddress (bchjs Ledger.plain) (VStr "addr") = Ret a /\
    getUtxos (wallet Ledger.plain) a = Ret utxos /\
    [Ledger.u1; Ledger.u3] `sublist_of`
      (if truthy (VStr Ledger.PSF) then slpTokens utxos else bchUtxos utxos).
Proof.
  apply (getTokenUtxos_subsequence Ledger.N2S Ledger.plain (VStr "addr")
           (VStr Ledger.PSF) [Ledger.u1; Ledger.u3]).
  evaluated.
Defined.

(** The token id of [numbered_token] is the number 38. *)
Lemma numbered_token_foreign : foreign_tokenId Ledger.numbered_token.
Proof.
  split; [vm_compute; reflexivity|].
  intros s H. vm_compute in H. discriminate H.
Qed.

(** A wallet that holds a token UTXO whose token id is a number. *)
Lemma getTokenUtxos_foreign_tokenId_witness :
  getTokenUtxos Ledger.N2S Ledger.odd (VStr "addr") (VStr Ledger.PSF)
    = Throw TypeError.
Proof.
  apply (getTokenUtxos_foreign_tokenId Ledger.N2S Ledger.odd (VStr "addr")
           (VStr Ledger.PSF) "addr"
           {| bchUtxos := Ledger.coins;
              slpTokens := [Ledger.u1; Ledger.numbered_token] |} false);
    [reflexivity | reflexivity | reflexivity | reflexivity |].
  apply Exists_cons_tl, Exists_cons_hd. exact numbered_token_foreign.
Defined.

(** A part of the token id selects what the token id selects. *)
Lemma getTokenUtxos_narrowing_witness :
  exists sel1 sel2,
    getTokenUtxos Ledger.N2S Ledger.plain (VStr "addr") (VStr "97c5") = Ret sel1 /\
    getTokenUtxos Ledger.N2S Ledger.plain (VStr "addr") (VStr Ledger.PSF)
      = Ret sel2 /\
    (forall elem, elem ∈ sel2 -> elem ∈ sel1) /\
    (forall elem, elem ∈ Ledger.tokens ->
       get elem "tokenId" = VStr "97c5" -> elem ∈ sel1).
Proof.
  apply (getTokenUtxos_narrowing Ledger.N2S Ledger.plain (VStr "addr") "addr"
           {| bchUtxos := Ledger.coins; slpTokens := Ledger.tokens |} false
           "97c5" Ledger.PSF eq_refl eq_refl eq_refl ledger_tokenIds
           ltac:(discriminate) ltac:(discriminate) ltac:(evaluated)).
Defined.

(** No pair is evaluated when no entry matches an input. *)
Lemma no_evaluation_no_match parentUtxos txHistory :
  evaluations parentUtxos txHistory = [] ->
  forall c e, c ∈ parentUtxos -> e ∈ txHistory ->
    strict_eq (get e "tx_hash") (vin_txid c) = false.
Proof.
  intros Hnil c e Hc He.
  destruct (strict_eq (get e "tx_hash") (vin_txid c)) eqn:Hmatch; [| reflexivity].
  assert (Hin : (c, e) ∈ evaluations parentUtxos txHistory)
    by (apply elem_of_evaluations; auto).
  rewrite Hnil in Hin. inversion Hin.
Qed.

(** The input [p1] of [u1] is not in the history of the address. *)
Lemma findTokenParent_outside_history_witness :
  findTokenParent Ledger.aged (VStr "u1") "addr" = Ret (JPrim (VBool false)).
Proof.
  apply (findTokenParent_outside_history Ledger.aged (VStr "u1") "addr"
           (Ledger.token_tx Ledger.PSF true [("p1", 1%float)]) []
           Ledger.history eq_refl eq_refl).
  apply no_evaluation_no_match. evaluated.
Defined.

(** The parent of [c]. *)
Lemma findTokenParent_sound_witness :
  exists child others txHistory c e d,
    getTxData (wallet Ledger.aged) (VStr "c") = Ret (child :: others) /\
    getTransactions (wallet Ledger.aged) "addr" = Ret txHistory /\
    c ∈ tx_vin child /\ e ∈ txHistory /\
    strict_eq (get e "tx_hash") (vin_txid c) = true /\
    Ledger.parent_pb = <["tx_pos" := vin_vout c]> e /\
    get Ledger.parent_pb "tx_hash" = get e "tx_hash" /\
    get Ledger.parent_pb "height" = get e "height" /\
    tx_of Ledger.aged (get Ledger.parent_pb "tx_hash") = Some d /\
    truthy (tx_isValidSlp d) = true /\
    strict_eq (tx_tokenId child) (tx_tokenId d) = true.
Proof.
  apply (findTokenParent_sound Ledger.aged (VStr "c") "addr" Ledger.parent_pb).
  evaluated.
Defined.

(** The transaction [k] spends [lost], which the history lists and the
    wallet has no record of. *)
Lemma findTokenParent_fails_fast_witness :
  exists err, findTokenParent Ledger.gappy (VStr "k") "addr" = Throw err.
Proof.
  apply (findTokenParent_fails_fast Ledger.gappy (VStr "k") "addr"
           (Ledger.token_tx Ledger.PSF true [("pa", 0%float); ("lost", 1%float)])
           [] [Ledger.entry "pa" 100; Ledger.entry "lost" 90]
           {| vin_txid := VStr "lost"; vin_vout := VNum 1 |}
           (Ledger.entry "lost" 90) eq_refl eq_refl).
  - apply list_elem_of_further, list_elem_of_here.
  - apply list_elem_of_further, list_elem_of_here.
  - evaluated.
  - evaluated.
Defined.

(** The walk from [k]: the resolution of [k] itself throws. *)
Lemma getParentAge_raises_only_lookups_witness :
  exists chain t,
    resolves Ledger.gappy "addr" (VStr "k") chain t /\ length chain < 3 /\
    truthy t = true /\
    findTokenParent Ledger.gappy t "addr"
      = Throw (External "transaction not found").
Proof.
  apply (getParentAge_raises_only_lookups Ledger.gappy 3 (VStr "k") "addr").
  evaluated.
Defined.

(** The transaction [z] resolves to itself. *)
Lemma cycle_closed t :
  Ledger.on_cycle t ->
  truthy t = true /\
  exists p, findTokenParent Ledger.cyclic t "addr" = Ret (JObj p) /\
            Ledger.on_cycle (get p "tx_hash").
Proof.
  intros ->. split; [reflexivity|].
  exists (<["tx_pos" := VNum 0]> (Ledger.entry "z" 10)).
  split; [evaluated|]. unfold Ledger.on_cycle. evaluated.
Qed.

(** The walk from [z] does not finish. *)
Lemma getParentAge_does_not_finish_on_a_cycle_witness :
  getParentAge Ledger.cyclic 1000 (VStr "z") "addr" = OutOfFuel.
Proof.
  apply (getParentAge_does_not_finish_on_a_cycle Ledger.cyclic "addr"
           Ledger.on_cycle (VStr "z") cycle_closed eq_refl 1000).
Defined.
